(** * Work schedule maker: the two shift assigners of [project.py]

    A shallow embedding of [assign_schedule] and
    [assign_schedule_without_preferences] together with the parts of the
    Python runtime they rely on (dictionaries, exceptions, the [random]
    module and [itertools.cycle]), followed by the properties of the
    weekly assignment table they produce. *)

From Stdlib Require Import ZArith.
From stdpp Require Import base option list strings gmap fin_maps.

Local Open Scope string_scope.
Local Open Scope list_scope.
Local Open Scope nat_scope.

(** ** Python runtime *)

(** Exceptions that can leave the two assigners.  [exit(1)] raises
    [SystemExit]; [NotEnoughWorkersError] is the program's own class. *)
Inductive exn :=
  | KeyError (key : string)
  | StopIteration
  | SystemExit (code : Z)
  | NotEnoughWorkersError (msg : string).

Inductive result (A : Type) :=
  | Ok (a : A)
  | Raise (e : exn).
Arguments Ok {A} a.
Arguments Raise {A} e.

Global Instance result_ret : MRet result := λ A a, Ok a.
Global Instance result_bind : MBind result := λ A B f m,
  match m with
  | Ok a => f a
  | Raise e => Raise e
  end.

Global Instance result_fmap : FMap result := λ A B f m,
  match m with
  | Ok a => Ok (f a)
  | Raise e => Raise e
  end.

(** [d[k]] on a dictionary with string keys. *)
Definition getitem {V} (d : gmap string V) (k : string) : result V :=
  match d !! k with
  | Some v => Ok v
  | None => Raise (KeyError k)
  end.

(** A dict comprehension [{key(x): value(x) for x in xs}]: items are
    stored in iteration order, a repeated key keeps the last value. *)
Definition dict_comp {A V} (kv : A → string * V) (xs : list A) : gmap string V :=
  foldl (λ d x, <[(kv x).1 := (kv x).2]> d) ∅ xs.

(** A [for] loop whose body may raise: the first exception ends the loop. *)
Fixpoint for_each {A S} (body : A → S → result S) (xs : list A) (s : S) : result S :=
  match xs with
  | [] => Ok s
  | x :: xs' => s' ← body x s; for_each body xs' s'
  end.

(** *** The [random] module

    The generator state is the tape of the raw draws still to come (an
    exhausted tape keeps drawing 0); [randbelow n] reduces the next draw
    into [range(n)].  Every sequence of in-range draws is the reduction of
    some tape, so quantifying over tapes covers every outcome of the
    shuffling.  [random.sample] and [random.shuffle] are CPython's: with
    [k = len(population)] the former always takes its pool branch. *)
Definition gen := list nat.

Definition randbelow (n : nat) (g : gen) : nat * gen := (hd 0 g `mod` n, tl g).

(** [for i in range(k): j = randbelow(n-i); result[i] = pool[j];
    pool[j] = pool[n-i-1]], with [left = n - i]. *)
Fixpoint sample_loop {A} (left : nat) (pool : list A) (g : gen) : list A * gen :=
  match left with
  | 0 => ([], g)
  | S m =>
      let '(j, g1) := randbelow (S m) g in
      match pool !! j, pool !! m with
      | Some x, Some y =>
          let '(r, g2) := sample_loop m (<[j := y]> pool) g1 in (x :: r, g2)
      | _, _ => ([], g1)
      end
  end.

(** [random.sample(population, len(population))] *)
Definition random_sample {A} (population : list A) (g : gen) : list A * gen :=
  sample_loop (length population) population g.

(** [for i in reversed(range(1, len(x))): j = randbelow(i + 1);
    x[i], x[j] = x[j], x[i]] *)
Fixpoint shuffle_loop {A} (i : nat) (x : list A) (g : gen) : list A * gen :=
  match i with
  | 0 => (x, g)
  | S i' =>
      let '(j, g1) := randbelow (S i) g in
      match x !! i, x !! j with
      | Some xi, Some xj => shuffle_loop i' (<[j := xi]> (<[i := xj]> x)) g1
      | _, _ => (x, g1)
      end
  end.

(** [random.shuffle(x)] *)
Definition random_shuffle {A} (x : list A) (g : gen) : list A * gen :=
  shuffle_loop (length x - 1) x g.

(** *** [itertools.cycle]

    The iterator over a list: the saved items and the position of the
    next one.  [next] on a cycle over an empty list raises
    [StopIteration]. *)
Record cycle_iter := Cycle { cycle_saved : list string; cycle_pos : nat }.

Definition itertools_cycle (xs : list string) : cycle_iter := Cycle xs 0.

Definition next (it : cycle_iter) : result (string * cycle_iter) :=
  match cycle_saved it !! cycle_pos it with
  | Some x =>
      let pos' := S (cycle_pos it) in
      Ok (x, Cycle (cycle_saved it)
                   (if decide (pos' = length (cycle_saved it)) then 0 else pos'))
  | None => Raise StopIteration
  end.

(** ** Data model *)

(** A shift as [import_shifts] builds it.  [days] is the sequence the
    assigners iterate over: the characters of the CSV field, each a
    one-character key of [all_days]. *)
Record Shift := {
  shift : string;
  start : string;
  end_ : string;
  days : list string
}.

(** A worker as [get_worker_information] builds it.  An empty answer is
    stored as the empty string [""] instead of a list; the only test made
    on it is [day_num in employee["unavailable_days"]] with [day_num] a
    key of [all_days] (the lookup [all_days[day_num]] has succeeded by
    then), which is false on [""] as on the empty list: it is the empty
    list here. *)
Record Employee := {
  name : string;
  unavailable_days : list string
}.

Global Instance Employee_eq_dec : EqDecision Employee.
Proof. solve_decision. Defined.

(** [all_days], in insertion order. *)
Definition all_days_items : list (string * string) :=
  [ ("1", "Monday"); ("2", "Tuesday"); ("3", "Wednesday"); ("4", "Thursday");
    ("5", "Friday"); ("6", "Saturday"); ("7", "Sunday") ].

Definition all_days : gmap string string := list_to_map all_days_items.

(** [all_days.values()] *)
Definition all_days_values : list string := all_days_items.*2.

(** The assignment table: shift identifier, then weekday name, then the
    names assigned to the slot. *)
Abbreviation Table := (gmap string (gmap string (list string))).

(** [assigned_shifts_per_day]: worker name, then weekday name, then the
    shift the worker is committed to that day ([None] in Python is [None]). *)
Abbreviation Commitments := (gmap string (gmap string (option string))).

(** [{day: [] for day in all_days.values()}] *)
Definition empty_week {V} (v : V) : gmap string V :=
  dict_comp (λ day, (day, v)) all_days_values.

(** [{shift["shift"]: {day: [] ...} for shift in shifts}] *)
Definition initial_assignments (shifts : list Shift) : Table :=
  dict_comp (λ s, (shift s, empty_week [])) shifts.

(** [{employee["name"]: {day: None ...} for employee in employees}] *)
Definition initial_commitments (employees : list Employee) : Commitments :=
  dict_comp (λ e, (name e, empty_week None)) employees.

(** [assignments[sid][day_name].append(who)] *)
Definition append_slot (assignments : Table) (sid day_name who : string) : result Table :=
  row ← getitem assignments sid;
  slot ← getitem row day_name;
  Ok (<[sid := <[day_name := slot ++ [who]]> row]> assignments).

(** [assigned_shifts_per_day[who][day_name] = sid] *)
Definition commit (asd : Commitments) (who day_name sid : string) : result Commitments :=
  row ← getitem asd who;
  Ok (<[who := <[day_name := Some sid]> row]> asd).

(** ** ConstrainedAssigner: [assign_schedule] *)

(** The candidate pool: [len(shifts) * len(all_days)] rounds, each one
    [random.sample(employees, len(employees))], flattened in order. *)
Fixpoint sample_rounds {A} (rounds : nat) (population : list A) (g : gen)
    : list (list A) * gen :=
  match rounds with
  | 0 => ([], g)
  | S r =>
      let '(block, g1) := random_sample population g in
      let '(blocks, g2) := sample_rounds r population g1 in
      (block :: blocks, g2)
  end.

Definition employee_list (shifts : list Shift) (employees : list Employee) (g : gen)
    : list Employee * gen :=
  let '(blocks, g') := sample_rounds (length shifts * length all_days_items) employees g in
  (concat blocks, g').

(** The loop state.  [list.pop()] removes the last item, so the pool is
    consumed from its end: [stack] is [employee_list] reversed, with the
    next candidate at its head. *)
Record loop_state := LoopState {
  assignments : Table;
  assigned_shifts_per_day : Commitments;
  stack : list Employee
}.

(** The condition of the [while]: the candidate is committed that day or
    cannot work that day. *)
Definition ineligible (asd : Commitments) (day_name day_num : string) (e : Employee)
    : result bool :=
  row ← getitem asd (name e);
  c ← getitem row day_name;
  Ok (bool_decide (c ≠ None) || bool_decide (day_num ∈ unavailable_days e)).

Definition not_enough_msg : string :=
  "Not enough workers to cover all shifts based on preferences.".

(** The [while] loop, entered with the candidate just popped. *)
Fixpoint skip_ineligible (asd : Commitments) (day_name day_num : string)
    (employee : Employee) (stack : list Employee) : result (Employee * list Employee) :=
  bad ← ineligible asd day_name day_num employee;
  if (bad : bool) then
    match stack with
    | [] => Raise (NotEnoughWorkersError not_enough_msg)
    | next_employee :: stack' =>
        skip_ineligible asd day_name day_num next_employee stack'
    end
  else Ok (employee, stack).

(** The body of the inner [for]: one (shift, day) slot. *)
Definition assign_slot (sid day_num : string) (st : loop_state) : result loop_state :=
  day_name ← getitem all_days day_num;
  match stack st with
  | [] => Raise (SystemExit 1)
  | employee :: stack' =>
      '(employee, stack'') ←
        skip_ineligible (assigned_shifts_per_day st) day_name day_num employee stack';
      assignments' ← append_slot (assignments st) sid day_name (name employee);
      asd' ← commit (assigned_shifts_per_day st) (name employee) day_name sid;
      Ok (LoopState assignments' asd' stack'')
  end.

Definition assign_shift (s : Shift) (st : loop_state) : result loop_state :=
  for_each (assign_slot (shift s)) (days s) st.

Definition assign_schedule (shifts : list Shift) (employees : list Employee) (g : gen)
    : result Table * gen :=
  let '(pool, g') := employee_list shifts employees g in
  let st := LoopState (initial_assignments shifts) (initial_commitments employees)
                      (reverse pool) in
  (assignments <$> for_each assign_shift shifts st, g').

(** ** FallbackAssigner: [assign_schedule_without_preferences] *)

(** The body of the inner [for]: the next name of the cycle takes the slot. *)
Definition assign_slot_without_preferences (sid day_num : string)
    (st : Table * cycle_iter) : result (Table * cycle_iter) :=
  day_name ← getitem all_days day_num;
  '(employee, employee_cycle) ← next st.2;
  assignments' ← append_slot st.1 sid day_name employee;
  Ok (assignments', employee_cycle).

Definition assign_shift_without_preferences (s : Shift) (st : Table * cycle_iter)
    : result (Table * cycle_iter) :=
  for_each (assign_slot_without_preferences (shift s)) (days s) st.

Definition assign_schedule_without_preferences (shifts : list Shift)
    (employees : list Employee) (g : gen) : result Table * gen :=
  let '(available_employees, g') := random_shuffle (name <$> employees) g in
  let employee_cycle := itertools_cycle available_employees in
  (fst <$> for_each assign_shift_without_preferences shifts
             (initial_assignments shifts, employee_cycle), g').

(** ** Notions used to state the properties *)

(** The (shift, day) slots in the order the nested loops visit them. *)
Definition slots (shifts : list Shift) : list (string * string) :=
  s ← shifts; pair (shift s) <$> days s.

(** Number of occurrences of [x] in [l]. *)
Definition count_of {A} `{EqDecision A} (x : A) (l : list A) : nat :=
  length (filter (x =.) l).

(** [assignments[sid][day_name]], when both keys are present. *)
Definition cell (T : Table) (sid day_name : string) : option (list string) :=
  T !! sid ≫= (.!! day_name).

(** The same for [assigned_shifts_per_day[who][day_name]]. *)
Definition commitment (asd : Commitments) (who day_name : string)
    : option (option string) :=
  asd !! who ≫= (.!! day_name).

(** How many of the slots [sl] fill the cell of [sid] and weekday [dn]. *)
Definition hits (sid dn : string) (sl : list (string * string)) : nat :=
  length (filter (λ x, x.1 = sid ∧ all_days !! x.2 = Some dn) sl).

(** The state in which the loops of [assign_schedule] start. *)
Definition initial_state (shifts : list Shift) (employees : list Employee) (g : gen)
    : loop_state :=
  LoopState (initial_assignments shifts) (initial_commitments employees)
            (reverse (employee_list shifts employees g).1).

(** The loops of [assign_schedule], slot by slot. *)
Definition run_slots (sl : list (string * string)) (st : loop_state) : result loop_state :=
  for_each (λ x, assign_slot x.1 x.2) sl st.

(** Total number of times [w] is listed on weekday [dn], over all the
    rows of the table. *)
Definition occurrences (w dn : string) (T : Table) : nat :=
  sum_list_with (λ kv, count_of w (default [] (kv.2 !! dn))) (map_to_list T).

(** The invariant behind "no double-booking": a name is listed at most
    once per weekday, and not at all while its commitment is unset. *)
Definition booked_once (st : loop_state) : Prop :=
  ∀ w dn,
    occurrences w dn (assignments st) ≤ 1 ∧
    (commitment (assigned_shifts_per_day st) w dn = Some None →
     occurrences w dn (assignments st) = 0).

(** Every listed name belongs to a worker who can work that day. *)
Definition only_available (employees : list Employee) (T : Table) : Prop :=
  ∀ sid dn l n,
    cell T sid dn = Some l → n ∈ l →
    ∃ e, e ∈ employees ∧ name e = n ∧
         ∀ d, all_days !! d = Some dn → d ∉ unavailable_days e.

Definition candidates_known (employees : list Employee) (st : loop_state) : Prop :=
  only_available employees (assignments st) ∧ ∀ e, e ∈ stack st → e ∈ employees.

(** The unavailability property as the specification words it: no worker
    is listed, by name, on a weekday of their unavailable set. *)
Definition unavailability_respected (employees : list Employee) (T : Table) : Prop :=
  ∀ w d dn sid l,
    w ∈ employees → d ∈ unavailable_days w → all_days !! d = Some dn →
    cell T sid dn = Some l → name w ∉ l.

(** Two workers who share a name, the first one unavailable on Monday. *)
Definition same_name_employees : list Employee :=
  [ {| name := "Bob"; unavailable_days := ["1"] |};
    {| name := "Bob"; unavailable_days := [] |} ].

Definition monday_shift : Shift :=
  {| shift := "Open"; start := "09:00"; end_ := "17:00"; days := ["1"] |}.

(** Either assigner returns the table [T]. *)
Definition returns_table (shifts : list Shift) (employees : list Employee) (g : gen)
    (T : Table) : Prop :=
  (assign_schedule shifts employees g).1 = Ok T ∨
  (assign_schedule_without_preferences shifts employees g).1 = Ok T.

(** Every day key of every shift is a key of [all_days]. *)
Definition valid_shifts (shifts : list Shift) : Prop :=
  Forall (λ s, Forall (λ d, is_Some (all_days !! d)) (days s)) shifts.

(** The table of the fallback assigner, written from the words of the
    specification and not from the source: the [k]-th active slot, in
    shift-then-day order, gets the [(k-1) mod n]-th name of the shuffled
    sequence [seq] of length [n]; nothing else is looked at. *)
Definition assign_to (T : Table) (sid day_name who : string) : Table :=
  alter (alter (.++ [who]) day_name) sid T.

Fixpoint round_robin_from (k : nat) (seq : list string)
    (sl : list (string * string)) (T : Table) : Table :=
  match sl with
  | [] => T
  | (sid, d) :: sl' =>
      round_robin_from (S k) seq sl'
        (assign_to T sid (all_days !!! d) (seq !!! ((k - 1) `mod` length seq)))
  end.

Definition round_robin_table (shifts : list Shift) (seq : list string) : Table :=
  round_robin_from 1 seq (slots shifts) (initial_assignments shifts).

(** *** A worked scenario

    Two shifts on Monday and Tuesday, three workers, Alice unavailable
    on Monday; the draws of the generator are fixed. *)
Definition scenario_shifts : list Shift :=
  [ {| shift := "Open"; start := "08:00"; end_ := "16:00"; days := ["1"; "2"] |};
    {| shift := "Close"; start := "16:00"; end_ := "23:00"; days := ["1"; "2"] |} ].

Definition scenario_employees : list Employee :=
  [ {| name := "Alice"; unavailable_days := ["1"] |};
    {| name := "Bob"; unavailable_days := [] |};
    {| name := "Carol"; unavailable_days := [] |} ].

Definition scenario_tape : gen := [1; 2; 3; 4; 5; 6; 7; 8; 9].

(** The table [assign_schedule] returns in the scenario. *)
Definition scenario_table : Table :=
  Eval vm_compute in
    match (assign_schedule scenario_shifts scenario_employees scenario_tape).1 with
    | Ok T => T
    | Raise _ => ∅
    end.

(** One shift that lists Monday twice, after the whole week. *)
Definition long_shift : Shift :=
  {| shift := "Desk"; start := "09:00"; end_ := "17:00";
     days := ["1"; "2"; "3"; "4"; "5"; "6"; "7"; "1"] |}.

(** A shift whose days field holds a key that is not a weekday index. *)
Definition day_zero_shift : Shift :=
  {| shift := "Night"; start := "22:00"; end_ := "06:00"; days := ["1"; "0"] |}.

(** The shift of the row [Night,22:00,06:00,110] of a shifts file: Monday
    twice, then the key ["0"]. *)
Definition monday_twice_day_zero_shift : Shift :=
  {| shift := "Night"; start := "22:00"; end_ := "06:00"; days := ["1"; "1"; "0"] |}.

(** *** Seeding

    [seed_state a] is the generator state that [random.seed(a)] installs,
    whatever the state before. *)
Definition random_seed (seed_state : Z → gen) (a : Z) (g : gen) : unit * gen :=
  (tt, seed_state a).

(** [random.seed(a); r1 = run(); random.seed(b); r2 = run()], from any
    state of the generator. *)
Definition two_seeded_runs {A} (seed_state : Z → gen) (a b : Z)
    (run : gen → A * gen) (g : gen) : A * A :=
  let '(_, g1) := random_seed seed_state a g in
  let '(r1, g2) := run g1 in
  let '(_, g3) := random_seed seed_state b g2 in
  let '(r2, _) := run g3 in
  (r1, r2).

(** The draws of a run: [assign_schedule] draws once per worker in each
    of its [len(shifts) * 7] samples, the fall-back assigner once per
    step of its one shuffle. *)
Definition pool_draws (shifts : list Shift) (employees : list Employee) : nat :=
  length shifts * 7 * length employees.

Definition shuffle_draws (employees : list Employee) : nat := length employees - 1.

(** Two seeds whose generator states differ after the 42 draws that
    [assign_schedule] makes in the scenario. *)
Definition scenario_seed_state (a : Z) : gen :=
  scenario_tape ++ replicate 33 0 ++ [Z.to_nat a].

(** ** The interactive layer of [project.py]

    The functions around the two assigners: validation of the days a
    user types, collection of the workers, the shift overview, the
    fall-back decision and the rendering of the schedule.  Strings are
    Python strings whose code points are below 256; a character is its
    code point.  Printed text is not modelled, except where printing is
    all a function does. *)

Import (notations) Stdlib.Strings.Ascii.
Local Abbreviation ascii := Ascii.ascii.
Local Abbreviation nat_of_ascii := Ascii.nat_of_ascii.
Local Abbreviation ascii_of_nat := Ascii.ascii_of_nat.
Local Abbreviation list_ascii_of_string := String.list_ascii_of_string.
Local Abbreviation string_of_list_ascii := String.string_of_list_ascii.

(** Exceptions of this layer; [Uncaught] carries those of the assigners. *)
Inductive error :=
  | ValueError
  | IndexError
  | UnboundLocalError (var : string)
  | EOFError
  | Uncaught (e : exn).

Inductive outcome (A : Type) :=
  | Done (a : A)
  | Fail (e : error).
Arguments Done {A} a.
Arguments Fail {A} e.

Global Instance outcome_ret : MRet outcome := λ A a, Done a.
Global Instance outcome_bind : MBind outcome := λ A B f m,
  match m with
  | Done a => f a
  | Fail e => Fail e
  end.

(** An exception of the assigners that nobody catches. *)
Definition propagate {A} (r : result A) : outcome A :=
  match r with
  | Ok a => Done a
  | Raise e => Fail (Uncaught e)
  end.

(** *** [str] methods *)

(** [c.isspace()]: below 256 these are TAB to CR, FS to US, the space,
    NEL and the no-break space. *)
Definition isspace_char (c : ascii) : bool :=
  bool_decide (nat_of_ascii c ∈ [9; 10; 11; 12; 13; 28; 29; 30; 31; 32; 133; 160]).

(** The decimal digits 0 to 9. *)
Definition isdecimal_char (c : ascii) : bool :=
  bool_decide (48 ≤ nat_of_ascii c ≤ 57).

(** [c.isdigit()]: the decimal digits and the superscripts two, three
    and one. *)
Definition isdigit_char (c : ascii) : bool :=
  isdecimal_char c || bool_decide (nat_of_ascii c ∈ [178; 179; 185]).

Fixpoint lstrip_chars (l : list ascii) : list ascii :=
  match l with
  | [] => []
  | c :: l' => if isspace_char c then lstrip_chars l' else l
  end.

(** [s.strip()] *)
Definition strip (s : string) : string :=
  string_of_list_ascii
    (reverse (lstrip_chars (reverse (lstrip_chars (list_ascii_of_string s))))).

(** [s.isdigit()]: false on the empty string. *)
Definition isdigit (s : string) : bool :=
  match list_ascii_of_string s with
  | [] => false
  | l => forallb isdigit_char l
  end.

(** [c.lower()]: A to Z and the capital letters from 192 to 222, the
    multiplication sign excepted, move up by 32. *)
Definition lower_char (c : ascii) : ascii :=
  let n := nat_of_ascii c in
  if bool_decide (65 ≤ n ≤ 90) || bool_decide (192 ≤ n ≤ 222 ∧ n ≠ 215)
  then ascii_of_nat (n + 32) else c.

(** [s.lower()] *)
Definition lower (s : string) : string :=
  string_of_list_ascii (lower_char <$> list_ascii_of_string s).

Fixpoint split_chars (sep : ascii) (l : list ascii) : list (list ascii) :=
  match l with
  | [] => [[]]
  | c :: l' =>
      if decide (c = sep) then [] :: split_chars sep l'
      else match split_chars sep l' with
           | [] => [[c]]
           | field :: fields => (c :: field) :: fields
           end
  end.

(** [s.split(",")] *)
Definition split_comma (s : string) : list string :=
  string_of_list_ascii <$> split_chars ","%char (list_ascii_of_string s).

(** [sep.join(l)] *)
Fixpoint join (sep : string) (l : list string) : string :=
  match l with
  | [] => ""
  | [x] => x
  | x :: l' => String.append x (String.append sep (join sep l'))
  end.

(** The value of a sequence of decimal digits. *)
Definition decimal_value (l : list ascii) : Z :=
  foldl (λ acc c, (10 * acc + (Z.of_nat (nat_of_ascii c) - 48))%Z) 0%Z l.

(** The most digits that [int()] converts, [sys.int_max_str_digits], as
    CPython sets it unless it is configured otherwise. *)
Definition int_max_str_digits : nat := 4300.

(** [int(s)] for a string without blank, sign or underscore, as are the
    strings with [s.isdigit()] and the single characters that
    [is_valid_day] and [shifts_table] pass: the value of the decimal
    digits, [ValueError] if the string is empty, if another character
    occurs (a superscript digit included), or if it has more than
    [int_max_str_digits] digits, leading zeros counted. *)
Definition int_of_str (s : string) : outcome Z :=
  match list_ascii_of_string s with
  | [] => Fail ValueError
  | l =>
      if forallb isdecimal_char l then
        if int_max_str_digits <? length l then Fail ValueError
        else Done (decimal_value l)
      else Fail ValueError
  end.

(** [input()]: the next line of the standard input, [EOFError] at its end. *)
Definition input (stdin : list string) : outcome (string * list string) :=
  match stdin with
  | [] => Fail EOFError
  | line :: stdin' => Done (line, stdin')
  end.

(** *** Collecting the workers *)

(** [day.strip().isdigit() and 1 <= int(day.strip()) <= 7] *)
Definition is_valid_day (day : string) : outcome bool :=
  if isdigit (strip day) then
    n ← int_of_str (strip day);
    Done (bool_decide (1 ≤ n ≤ 7)%Z)
  else Done false.

(** [all(is_valid_day(day) for day in days)]: stops at the first day
    that is not valid. *)
Fixpoint all_valid_days (days : list string) : outcome bool :=
  match days with
  | [] => Done true
  | day :: days' =>
      valid ← is_valid_day day;
      if (valid : bool) then all_valid_days days' else Done false
  end.

(** [input("Worker: ").strip()] *)
Definition get_worker_name (stdin : list string) : outcome (string * list string) :=
  '(line, stdin') ← input stdin;
  Done (strip line, stdin').

(** The [while True] of [get_unavailable_days], one line of input per
    round.  The empty answer returns the empty string, which stands for
    no day at all: the empty list here, as in [Employee]. *)
Fixpoint get_unavailable_days (worker_name : string) (stdin : list string)
    : outcome (list string * list string) :=
  match stdin with
  | [] => Fail EOFError
  | line :: stdin' =>
      let user_input := strip line in
      if decide (user_input = "") then Done ([], stdin')
      else
        let unavailable_days_input := split_comma user_input in
        valid ← all_valid_days unavailable_days_input;
        if (valid : bool) then Done (strip <$> unavailable_days_input, stdin')
        else get_unavailable_days worker_name stdin'
  end.

(** The [while True] of [get_worker_information].  Every round reads at
    least one line, so [rounds] rounds suffice for an input of fewer
    than [rounds] lines. *)
Fixpoint worker_information_loop (rounds : nat) (workers : list Employee)
    (stdin : list string) : outcome (list Employee * list string) :=
  match rounds with
  | 0 => Fail EOFError
  | S rounds' =>
      '(worker_name, stdin1) ← get_worker_name stdin;
      if decide (worker_name = "") then Done (workers, stdin1)
      else
        '(unavailable, stdin2) ← get_unavailable_days worker_name stdin1;
        worker_information_loop rounds'
          (workers ++ [ {| name := worker_name; unavailable_days := unavailable |} ])
          stdin2
  end.

Definition get_worker_information (stdin : list string)
    : outcome (list Employee * list string) :=
  worker_information_loop (S (length stdin)) [] stdin.

(** [total_workers], over the function [int] that parses a typed line
    ([None] for [ValueError]): a line that does not parse, or parses to
    a number that is not positive, is asked again. *)
Fixpoint total_workers (int : string → option Z) (stdin : list string)
    : outcome (Z * list string) :=
  match stdin with
  | [] => Fail EOFError
  | line :: stdin' =>
      match int line with
      | Some min_workers =>
          if bool_decide (min_workers > 0)%Z then Done (min_workers, stdin')
          else total_workers int stdin'
      | None => total_workers int stdin'
      end
  end.

(** [minimum_workers_check]: both arguments are numbers already. *)
Definition minimum_workers_check (employees min_workers : Z) : outcome bool :=
  if bool_decide (employees < min_workers)%Z then Fail (Uncaught (SystemExit 1))
  else Done true.

(** *** The overview of the shifts *)

(** A shift as [import_shifts] stores it: four strings, [days] being the
    field of the file. *)
Record ShiftRow := {
  row_shift : string;
  row_start : string;
  row_end : string;
  row_days : string
}.

(** Iterating over a string yields its characters as strings. *)
Definition characters (s : string) : list string :=
  (λ c, String c "") <$> list_ascii_of_string s.

(** The shift the assigners iterate over. *)
Definition shift_of_row (r : ShiftRow) : Shift :=
  {| shift := row_shift r; start := row_start r; end_ := row_end r;
     days := characters (row_days r) |}.

(** [row[i] = x] for an index that is not negative. *)
Definition setitem (row : list string) (i : Z) (x : string) : outcome (list string) :=
  if bool_decide (Z.to_nat i < length row) then Done (<[Z.to_nat i := x]> row)
  else Fail IndexError.

(** [row[3 + int(day_num) - 1] = "+"] *)
Definition mark_day (row : list string) (day_num : string) : outcome (list string) :=
  n ← int_of_str day_num;
  setitem row (3 + n - 1)%Z "+".

Fixpoint mark_days (day_nums : list string) (row : list string)
    : outcome (list string) :=
  match day_nums with
  | [] => Done row
  | day_num :: day_nums' => row' ← mark_day row day_num; mark_days day_nums' row'
  end.

(** One round of the loop of [shifts_table]. *)
Definition shifts_table_row (r : ShiftRow) : outcome (list string) :=
  mark_days (characters (strip (row_days r)))
            ([row_shift r; row_start r; row_end r] ++ replicate (length all_days_items) "").

Fixpoint shifts_table_rows (shifts : list ShiftRow) : outcome (list (list string)) :=
  match shifts with
  | [] => Done []
  | r :: shifts' =>
      row ← shifts_table_row r;
      rows ← shifts_table_rows shifts';
      Done (row :: rows)
  end.

(** [shifts_table]: [colalign] is assigned inside the loop and read after
    it, by the [print]. *)
Definition shifts_table (shifts : list ShiftRow) : outcome (list (list string)) :=
  table_data ← shifts_table_rows shifts;
  match shifts with
  | [] => Fail (UnboundLocalError "colalign")
  | _ => Done table_data
  end.

(** *** Showing the requested days and the schedule *)

Fixpoint free_days_of (requested_days : list string) : result (list string) :=
  match requested_days with
  | [] => Ok []
  | requested_day :: rest =>
      day ← getitem all_days requested_day;
      days ← free_days_of rest;
      Ok (day :: days)
  end.

(** The line [show_requested_free_days] prints for one worker. *)
Definition requested_free_days_line (worker : Employee) : result string :=
  free_days ← free_days_of (unavailable_days worker);
  Ok (match free_days with
      | [] => String.append (name worker) " has no requested free days."
      | _ => String.append (name worker) (String.append ": " (join ", " free_days))
      end).

Fixpoint requested_free_days_lines (workers : list Employee) : result (list string) :=
  match workers with
  | [] => Ok []
  | worker :: workers' =>
      line ← requested_free_days_line worker;
      lines ← requested_free_days_lines workers';
      Ok (line :: lines)
  end.

(** [show_requested_free_days]: the lines it prints after the heading. *)
Definition show_requested_free_days (workers : list Employee) : result (list string) :=
  requested_free_days_lines workers.

(** [", ".join(assignments[shift["shift"]][day]) for day in all_days.values()] *)
Fixpoint schedule_cells (assignments : Table) (sid : string) (day_names : list string)
    : result (list string) :=
  match day_names with
  | [] => Ok []
  | day :: day_names' =>
      row ← getitem assignments sid;
      names ← getitem row day;
      cells ← schedule_cells assignments sid day_names';
      Ok (join ", " names :: cells)
  end.

(** [show_schedule]: the table data it prints and returns. *)
Fixpoint show_schedule (shifts : list Shift) (assignments : Table)
    : result (list (list string)) :=
  match shifts with
  | [] => Ok []
  | s :: shifts' =>
      cells ← schedule_cells assignments (shift s) all_days_values;
      rows ← show_schedule shifts' assignments;
      Ok ((shift s :: cells) :: rows)
  end.

(** *** The fall-back decision *)

(** [complete_assignement]: the generator and the standard input are
    threaded through; only [NotEnoughWorkersError] is caught. *)
Definition complete_assignement (shifts : list Shift) (employees : list Employee)
    (g : gen) (stdin : list string) : outcome (Table * gen * list string) :=
  match assign_schedule shifts employees g with
  | (Ok assignments, g') => Done (assignments, g', stdin)
  | (Raise (NotEnoughWorkersError _), g') =>
      '(line, stdin') ← input stdin;
      if decide (lower (strip line) = "yes") then
        match assign_schedule_without_preferences shifts employees g' with
        | (Ok assignments, g'') => Done (assignments, g'', stdin')
        | (Raise e, _) => Fail (Uncaught e)
        end
      else Fail (Uncaught (SystemExit 1))
  | (Raise e, _) => Fail (Uncaught e)
  end.

(** Number of slots of the whole table that list [w]. *)
Definition total_slots (w : string) (T : Table) : nat :=
  sum_list_with (λ dn, occurrences w dn T) all_days_values.

(** One of the digits 1 to 7 after any number of zeros. *)
Definition weekday_literal (s : string) : Prop :=
  ∃ k d, list_ascii_of_string s = replicate k "0"%char ++ [d] ∧
         49 ≤ nat_of_ascii d ≤ 55.

(** A string that is not too long for [int()]. *)
Definition within_int_limit (s : string) : Prop :=
  length (list_ascii_of_string s) ≤ int_max_str_digits.

(** One of the superscript digits two, three and one. *)
Definition superscript_digit (c : ascii) : Prop :=
  nat_of_ascii c ∈ [178; 179; 185].

(** What [get_worker_information] guarantees of a worker: a name that is
    not empty and has no blank at either end, and days that are digits 1
    to 7 after any number of zeros. *)
Definition collected_worker (w : Employee) : Prop :=
  name w ≠ "" ∧ strip (name w) = name w ∧
  Forall weekday_literal (unavailable_days w).

(** The days field of a row holds digits 0 to 7 only, once stripped. *)
Definition digits_up_to_seven (r : ShiftRow) : Prop :=
  Forall (λ c, 48 ≤ nat_of_ascii c ≤ 55) (list_ascii_of_string (strip (row_days r))).

(** The digit [k] as a character. *)
Definition digit_char (k : nat) : ascii := ascii_of_nat (48 + k).

(** Every unavailable day of every worker is a key of [all_days]. *)
Definition days_are_keys (workers : list Employee) : Prop :=
  Forall (λ w, Forall (λ d, is_Some (all_days !! d)) (unavailable_days w)) workers.

(** Every lookup the constrained assigner can make in state [st]
    succeeds: the table has a cell for each shift identifier and
    weekday, and each candidate has a commitment for each weekday. *)
Definition lookups_succeed (ids : list string) (st : loop_state) : Prop :=
  (∀ sid dn, sid ∈ ids → dn ∈ all_days_values →
     is_Some (cell (assignments st) sid dn)) ∧
  (∀ e dn, e ∈ stack st → dn ∈ all_days_values →
     is_Some (commitment (assigned_shifts_per_day st) (name e) dn)).

(** Every name listed in the table is the name of a worker. *)
Definition names_of_workers (employees : list Employee) (T : Table) : Prop :=
  ∀ sid dn l n, cell T sid dn = Some l → n ∈ l → n ∈ name <$> employees.

(** The row [show_schedule] makes for a shift: its identifier, then for
    each weekday the names of the cell joined by a comma and a blank. *)
Definition schedule_row (T : Table) (s : Shift) : list string :=
  shift s :: ((λ dn, join ", " (default [] (cell T (shift s) dn))) <$> all_days_values).

(** The spellings of [yes]. *)
Definition yes_spellings : list string :=
  ["yes"; "yeS"; "yEs"; "yES"; "Yes"; "YeS"; "YEs"; "YES"].

(** The opening shift of the scenario. *)
(** The row [Night,22:00,06:00,110] of a shifts file. *)
Definition night_row : ShiftRow :=
  {| row_shift := "Night"; row_start := "22:00"; row_end := "06:00";
     row_days := "110" |}.

Definition monday_tuesday_open : Shift :=
  {| shift := "Open"; start := "08:00"; end_ := "16:00"; days := ["1"; "2"] |}.

(** * Properties *)

(** ** Exceptions and loops *)

Lemma bind_Ok {A B} (m : result A) (f : A → result B) b :
  m ≫= f = Ok b ↔ ∃ a, m = Ok a ∧ f a = Ok b.
Proof.
  destruct m as [a|e]; simpl; split.
  - intros H. by exists a.
  - by intros (a' & [= <-] & H).
  - done.
  - by intros (a' & [=] & _).
Qed.

Lemma bind_Raise {A B} (m : result A) (f : A → result B) e :
  m ≫= f = Raise e ↔ m = Raise e ∨ ∃ a, m = Ok a ∧ f a = Raise e.
Proof.
  destruct m as [a|e']; simpl; split.
  - intros H. right. by exists a.
  - by intros [[=] | (a' & [= <-] & H)].
  - intros [= ->]. by left.
  - by intros [[= ->] | (a' & [=] & _)].
Qed.

Lemma getitem_Ok {V} (d : gmap string V) k v : getitem d k = Ok v ↔ d !! k = Some v.
Proof. unfold getitem. destruct (d !! k); naive_solver. Qed.

Lemma getitem_Raise {V} (d : gmap string V) k e :
  getitem d k = Raise e → e = KeyError k ∧ d !! k = None.
Proof. unfold getitem. destruct (d !! k); naive_solver. Qed.

Lemma for_each_app {A S} (body : A → S → result S) xs ys s :
  for_each body (xs ++ ys) s = for_each body xs s ≫= for_each body ys.
Proof.
  revert s. induction xs as [|x xs IH]; intros s; simpl; [done|].
  destruct (body x s) as [s'|e]; simpl; [apply IH | done].
Qed.

(** An invariant of the body is an invariant of the loop. *)
Lemma for_each_invariant {A S} (P : S → Prop) (body : A → S → result S) xs s s' :
  (∀ x t t', x ∈ xs → P t → body x t = Ok t' → P t') →
  P s → for_each body xs s = Ok s' → P s'.
Proof.
  revert s. induction xs as [|x xs IH]; intros s Hbody Hs; simpl.
  - by intros [= <-].
  - intros (t & Ht & Hrest)%bind_Ok.
    apply (IH t); [| |done].
    + intros y u u' Hy. apply Hbody. by right.
    + apply (Hbody x s t); [by left|done..].
Qed.

(** A loop raises exactly when some iteration does, the earlier ones
    having completed. *)
Lemma for_each_Raise {A S} (body : A → S → result S) xs s e :
  for_each body xs s = Raise e ↔
  ∃ pre x post t, xs = pre ++ x :: post ∧ for_each body pre s = Ok t ∧ body x t = Raise e.
Proof.
  revert s. induction xs as [|x xs IH]; intros s; simpl.
  - split; [done|]. intros (pre & y & post & t & Hxs & _). by destruct pre.
  - rewrite bind_Raise. split.
    + intros [H | (t & Ht & Hrest)].
      * by exists [], x, xs, s.
      * apply IH in Hrest as (pre & y & post & u & -> & Hpre & Hy).
        exists (x :: pre), y, post, u. simpl. rewrite Ht. done.
    + intros (pre & y & post & t & Hxs & Hpre & Hy).
      destruct pre as [|z pre]; simpl in *.
      * injection Hxs as -> ->. injection Hpre as ->. by left.
      * injection Hxs as -> ->.
        apply bind_Ok in Hpre as (u & Hu & Hpre). right. exists u. split; [done|].
        apply IH. by exists pre, y, post, t.
Qed.

Lemma for_each_fmap {A B S} (f : A → B) (body : B → S → result S) xs s :
  for_each body (f <$> xs) s = for_each (λ x, body (f x)) xs s.
Proof.
  revert s. induction xs as [|x xs IH]; intros s; simpl; [done|].
  destruct (body (f x) s); simpl; [apply IH | done].
Qed.

Lemma for_each_slots {S} (body : string → string → S → result S) shifts s :
  for_each (λ sh, for_each (body (shift sh)) (days sh)) shifts s
  = for_each (λ x, body x.1 x.2) (slots shifts) s.
Proof.
  revert s. induction shifts as [|sh shifts IH]; intros s; [done|].
  unfold slots. simpl. fold (slots shifts).
  rewrite for_each_app, for_each_fmap. simpl.
  destruct (for_each _ (days sh) s); simpl; [apply IH | done].
Qed.

(** ** Dictionaries built by comprehension *)

Lemma dict_comp_snoc {A V} (kv : A → string * V) xs x :
  dict_comp kv (xs ++ [x]) = <[(kv x).1 := (kv x).2]> (dict_comp kv xs).
Proof. unfold dict_comp. by rewrite foldl_app. Qed.

Lemma dict_comp_const_lookup {A V} (key : A → string) (v : V) xs k :
  dict_comp (λ x, (key x, v)) xs !! k
  = if decide (k ∈ key <$> xs) then Some v else None.
Proof.
  induction xs as [|x xs IH] using rev_ind.
  - rewrite decide_False by apply not_elem_of_nil. done.
  - rewrite dict_comp_snoc, fmap_app. simpl.
    destruct (decide (key x = k)) as [->|Hne].
    + rewrite lookup_insert_eq, decide_True; [done|].
      apply elem_of_app. right. by left.
    + rewrite lookup_insert_ne, IH by done.
      apply decide_ext. rewrite elem_of_app, list_elem_of_singleton. intuition congruence.
Qed.

(** ** The weekday table *)

Lemma all_days_cases d dn :
  all_days !! d = Some dn → (d, dn) ∈ all_days_items.
Proof. apply elem_of_list_to_map_2. Qed.

Lemma all_days_inj d1 d2 dn :
  all_days !! d1 = Some dn → all_days !! d2 = Some dn → d1 = d2.
Proof.
  intros H1 H2.
  apply all_days_cases, list_elem_of_In in H1.
  apply all_days_cases, list_elem_of_In in H2.
  simpl in H1, H2.
  repeat (destruct H1 as [[= <- <-]|H1];
    [repeat (destruct H2 as [H2|H2]; [congruence|]); destruct H2|]).
  destruct H1.
Qed.

Lemma all_days_value d dn : all_days !! d = Some dn → dn ∈ all_days_values.
Proof.
  intros H%all_days_cases. unfold all_days_values.
  apply list_elem_of_fmap. by exists (d, dn).
Qed.

Lemma all_days_key dn : dn ∈ all_days_values → ∃ d, all_days !! d = Some dn.
Proof.
  intros H. apply list_elem_of_fmap in H as ([d dn'] & -> & H).
  exists d. apply elem_of_list_to_map_1; [|done].
  by apply (bool_decide_unpack _).
Qed.

Lemma empty_week_lookup {V} (v : V) dn :
  empty_week v !! dn = if decide (dn ∈ all_days_values) then Some v else None.
Proof.
  unfold empty_week. rewrite (dict_comp_const_lookup id), list_fmap_id. done.
Qed.

(** ** The [random] module returns permutations *)

Lemma randbelow_lt n g : (randbelow (S n) g).1 < S n.
Proof. unfold randbelow. cbn [fst]. apply Nat.mod_upper_bound. lia. Qed.

Lemma insert_vacated {A} (l : list A) j x y :
  l !! j = Some x → x :: <[j := y]> l ≡ₚ l ++ [y].
Proof.
  revert j. induction l as [|a l IH]; intros [|j] Hj; simplify_eq/=.
  - apply perm_skip, Permutation_cons_append.
  - rewrite perm_swap. apply perm_skip. by apply IH.
Qed.

(** The selection loop returns the live part of its pool, reordered. *)
Lemma sample_loop_perm {A} (left : nat) (pool : list A) g :
  left ≤ length pool → (sample_loop left pool g).1 ≡ₚ take left pool.
Proof.
  revert pool g. induction left as [|m IH]; intros pool g Hlen.
  { by rewrite take_0. }
  cbn [sample_loop].
  pose proof (randbelow_lt m g) as Hj.
  destruct (randbelow (S m) g) as [j g1]. cbn [fst] in Hj.
  destruct (lookup_lt_is_Some_2 pool j) as [x Hx]; [lia|].
  destruct (lookup_lt_is_Some_2 pool m) as [y Hy]; [lia|].
  rewrite Hx, Hy.
  specialize (IH (<[j := y]> pool) g1).
  destruct (sample_loop m (<[j := y]> pool) g1) as [r g2]. cbn [fst] in *.
  rewrite IH by (rewrite length_insert; lia).
  rewrite (take_S_r _ _ y) by done.
  destruct (decide (j = m)) as [->|Hne].
  - rewrite list_insert_id by done. simplify_eq.
    apply Permutation_cons_append.
  - rewrite take_insert_lt by lia.
    apply insert_vacated. rewrite lookup_take_lt by lia. done.
Qed.

Lemma random_sample_perm {A} (population : list A) g :
  (random_sample population g).1 ≡ₚ population.
Proof.
  unfold random_sample. rewrite sample_loop_perm by done.
  by rewrite firstn_all.
Qed.

Lemma sample_rounds_blocks {A} rounds (population : list A) g :
  length (sample_rounds rounds population g).1 = rounds ∧
  Forall (λ block, block ≡ₚ population) (sample_rounds rounds population g).1.
Proof.
  revert g. induction rounds as [|r IH]; intros g; simpl; [done|].
  pose proof (random_sample_perm population g) as Hb.
  destruct (random_sample population g) as [block g1].
  specialize (IH g1). destruct (sample_rounds r population g1) as [blocks g2].
  simpl in *. destruct IH as [-> IH]. split; [done|]. by constructor.
Qed.

Lemma shuffle_loop_perm {A} i (x : list A) g :
  (shuffle_loop i x g).1 ≡ₚ x.
Proof.
  revert x g. induction i as [|i IH]; intros x g; [done|].
  cbn [shuffle_loop].
  destruct (randbelow (S (S i)) g) as [j g1].
  destruct (x !! S i) as [xi|] eqn:Hi; [|done].
  destruct (x !! j) as [xj|] eqn:Hj; [|done].
  rewrite IH.
  destruct (decide (j = S i)) as [->|Hne].
  - simplify_eq. rewrite list_insert_insert_eq. by rewrite list_insert_id.
  - apply Permutation_cons_inv with (a := xj).
    apply Permutation_cons_inv with (a := xi).
    rewrite (insert_vacated (<[S i := xj]> x) j xj xi)
      by (by rewrite list_lookup_insert_ne).
    rewrite <- Permutation_cons_append.
    rewrite (insert_vacated x (S i) xi xj) by done.
    by rewrite <- Permutation_cons_append.
Qed.

Lemma random_shuffle_perm {A} (x : list A) g : (random_shuffle x g).1 ≡ₚ x.
Proof. apply shuffle_loop_perm. Qed.

(** ** The candidate pool *)

Lemma count_of_app {A} `{EqDecision A} (x : A) l1 l2 :
  count_of x (l1 ++ l2) = count_of x l1 + count_of x l2.
Proof. unfold count_of. by rewrite filter_app, length_app. Qed.

Lemma count_of_perm {A} `{EqDecision A} (x : A) l1 l2 :
  l1 ≡ₚ l2 → count_of x l1 = count_of x l2.
Proof. unfold count_of. by intros ->. Qed.

Lemma count_of_zero {A} `{EqDecision A} (x : A) l : x ∉ l → count_of x l = 0.
Proof.
  unfold count_of. induction l as [|y l IH]; intros Hx; [done|].
  apply not_elem_of_cons in Hx as [Hne Hx].
  rewrite filter_cons_False by done. by apply IH.
Qed.

Lemma count_of_NoDup {A} `{EqDecision A} (x : A) l :
  NoDup l → x ∈ l → count_of x l = 1.
Proof.
  unfold count_of. induction l as [|y l IH]; intros Hnd Hx.
  - by apply elem_of_nil in Hx.
  - apply NoDup_cons in Hnd as [Hy Hnd].
    destruct (decide (x = y)) as [<-|Hne].
    + rewrite filter_cons_True by done. simpl. f_equal. by apply count_of_zero.
    + rewrite filter_cons_False by done. apply IH; [done|].
      apply elem_of_cons in Hx as [?|?]; done.
Qed.

Lemma concat_blocks_length {A} (population : list A) blocks :
  Forall (λ block, block ≡ₚ population) blocks →
  length (concat blocks) = length blocks * length population.
Proof.
  induction 1 as [|block blocks Hb _ IH]; simpl; [done|].
  by rewrite length_app, IH, Hb.
Qed.

Lemma concat_blocks_count {A} `{EqDecision A} (x : A) population blocks :
  Forall (λ block, block ≡ₚ population) blocks →
  count_of x (concat blocks) = length blocks * count_of x population.
Proof.
  induction 1 as [|block blocks Hb _ IH]; simpl; [done|].
  by rewrite count_of_app, IH, (count_of_perm x _ _ Hb).
Qed.

Lemma concat_blocks_elem {A} (x : A) population blocks :
  Forall (λ block, block ≡ₚ population) blocks →
  x ∈ concat blocks → x ∈ population.
Proof.
  induction 1 as [|block blocks Hb _ IH]; simpl.
  - by intros ?%elem_of_nil.
  - rewrite elem_of_app, Hb. tauto.
Qed.

(** Every candidate of the pool is one of the workers. *)
Lemma employee_list_elem shifts employees g e :
  e ∈ (employee_list shifts employees g).1 → e ∈ employees.
Proof.
  unfold employee_list.
  destruct (sample_rounds_blocks (length shifts * length all_days_items) employees g)
    as [_ Hblocks].
  destruct (sample_rounds _ employees g) as [blocks g']. simpl in *.
  by apply concat_blocks_elem.
Qed.

(** C8.  The candidate pool of [assign_schedule] is the concatenation of
    [len(shifts) * 7] blocks, each a permutation of the workers; hence
    its length is [len(shifts) * 7 * len(employees)] and every worker
    occurs in it [len(shifts) * 7] times as often as in the workers
    list (once per block when the workers are pairwise distinct). *)
Theorem candidate_pool_blocks (shifts : list Shift) (employees : list Employee) (g : gen) :
  let pool := (employee_list shifts employees g).1 in
  ∃ blocks : list (list Employee),
    pool = concat blocks ∧
    length blocks = length shifts * 7 ∧
    Forall (λ block, block ≡ₚ employees) blocks ∧
    (∀ block e, block ∈ blocks → NoDup employees → e ∈ employees →
       count_of e block = 1) ∧
    length pool = length shifts * 7 * length employees ∧
    ∀ e, count_of e pool = length shifts * 7 * count_of e employees.
Proof.
  unfold employee_list.
  destruct (sample_rounds_blocks (length shifts * length all_days_items) employees g)
    as [Hlen Hblocks].
  destruct (sample_rounds _ employees g) as [blocks g']. simpl in *.
  exists blocks. split_and!; [done|done|done| | |].
  - intros block e Hb Hnd He.
    rewrite Forall_forall in Hblocks.
    rewrite (count_of_perm e block employees) by by apply Hblocks.
    by apply count_of_NoDup.
  - by rewrite (concat_blocks_length employees), Hlen.
  - intros e. by rewrite (concat_blocks_count e employees), Hlen.
Qed.

(** ** Cells of the assignment table *)

Lemma append_slot_Ok T sid dn w T' :
  append_slot T sid dn w = Ok T' ↔
  ∃ row l, T !! sid = Some row ∧ row !! dn = Some l ∧
           T' = <[sid := <[dn := l ++ [w]]> row]> T.
Proof.
  unfold append_slot. rewrite bind_Ok. setoid_rewrite bind_Ok.
  setoid_rewrite getitem_Ok. split.
  - intros (row & Hrow & l & Hl & [= <-]). by exists row, l.
  - intros (row & l & Hrow & Hl & ->). exists row. split; [done|]. by exists l.
Qed.

Lemma append_slot_cell T sid dn w T' :
  append_slot T sid dn w = Ok T' →
  ∃ l, cell T sid dn = Some l ∧
       ∀ s d, cell T' s d
              = if decide (s = sid ∧ d = dn) then Some (l ++ [w]) else cell T s d.
Proof.
  intros (row & l & Hrow & Hl & ->)%append_slot_Ok.
  exists l. unfold cell. split; [by rewrite Hrow|]. intros s d.
  destruct (decide (s = sid)) as [->|Hs].
  - rewrite lookup_insert_eq, Hrow. simpl.
    destruct (decide (d = dn)) as [->|Hd].
    + rewrite lookup_insert_eq. by rewrite decide_True.
    + rewrite lookup_insert_ne by done. rewrite decide_False; [done|tauto].
  - rewrite lookup_insert_ne by done. rewrite decide_False; [done|tauto].
Qed.

Lemma append_slot_total T sid dn w :
  is_Some (cell T sid dn) → ∃ T', append_slot T sid dn w = Ok T'.
Proof.
  unfold cell. intros [l Hl].
  destruct (T !! sid) as [row|] eqn:Hrow; [|done]. simpl in Hl.
  eexists. apply append_slot_Ok. by exists row, l.
Qed.

Lemma append_slot_Raise T sid dn w e :
  append_slot T sid dn w = Raise e → ∃ k, e = KeyError k.
Proof.
  unfold append_slot.
  intros [H|(row & _ & [H|(l & _ & [=])]%bind_Raise)]%bind_Raise;
    apply getitem_Raise in H as [-> _]; by eexists.
Qed.

Lemma initial_assignments_cell shifts sid dn :
  cell (initial_assignments shifts) sid dn
  = if decide (sid ∈ shift <$> shifts ∧ dn ∈ all_days_values) then Some [] else None.
Proof.
  unfold cell, initial_assignments. rewrite dict_comp_const_lookup.
  destruct (decide (sid ∈ shift <$> shifts)); simpl.
  - rewrite empty_week_lookup. apply decide_ext. tauto.
  - rewrite decide_False; [done|tauto].
Qed.

Lemma initial_commitments_commitment employees who dn :
  commitment (initial_commitments employees) who dn
  = if decide (who ∈ name <$> employees ∧ dn ∈ all_days_values)
    then Some None else None.
Proof.
  unfold commitment, initial_commitments. rewrite dict_comp_const_lookup.
  destruct (decide (who ∈ name <$> employees)); simpl.
  - rewrite empty_week_lookup. apply decide_ext. tauto.
  - rewrite decide_False; [done|tauto].
Qed.

Lemma hits_shift sid dn k ds :
  hits sid dn (pair k <$> ds)
  = if decide (k = sid)
    then length (filter (λ d, all_days !! d = Some dn) ds) else 0.
Proof.
  unfold hits. destruct (decide (k = sid)) as [Hk|Hk].
  - induction ds as [|d ds IH]; [done|]. rewrite fmap_cons.
    destruct (decide (all_days !! d = Some dn)).
    + rewrite !filter_cons_True by done. simpl. by rewrite IH.
    + rewrite !filter_cons_False by (simpl; tauto). done.
  - induction ds as [|d ds IH]; [done|]. rewrite fmap_cons.
    rewrite filter_cons_False by (simpl; tauto). done.
Qed.

Lemma hits_slots_cons sid dn s shifts :
  hits sid dn (slots (s :: shifts))
  = (if decide (shift s = sid)
     then length (filter (λ d, all_days !! d = Some dn) (days s)) else 0)
    + hits sid dn (slots shifts).
Proof.
  rewrite <- hits_shift. unfold hits, slots. simpl.
  by rewrite filter_app, length_app.
Qed.

Lemma hits_slots_absent sid dn shifts :
  sid ∉ shift <$> shifts → hits sid dn (slots shifts) = 0.
Proof.
  induction shifts as [|s shifts IH]; intros Hsid; [done|].
  rewrite fmap_cons in Hsid. apply not_elem_of_cons in Hsid as [Hne Hsid].
  rewrite hits_slots_cons, decide_False by done. by apply IH.
Qed.

(** With distinct shift identifiers, only the shift itself fills its row. *)
Lemma hits_slots_NoDup s dn shifts :
  NoDup (shift <$> shifts) → s ∈ shifts →
  hits (shift s) dn (slots shifts)
  = length (filter (λ d, all_days !! d = Some dn) (days s)).
Proof.
  induction shifts as [|s' shifts IH]; intros Hnd Hs.
  - by apply elem_of_nil in Hs.
  - rewrite fmap_cons in Hnd. apply NoDup_cons in Hnd as [Hs' Hnd].
    rewrite hits_slots_cons.
    apply elem_of_cons in Hs as [->|Hs].
    + rewrite decide_True by done. by rewrite hits_slots_absent.
    + rewrite decide_False, IH; [done..|].
      intros Heq. apply Hs'. rewrite Heq. by apply list_elem_of_fmap_2.
Qed.

Lemma day_hits_once d dn ds :
  NoDup ds → d ∈ ds → all_days !! d = Some dn →
  length (filter (λ d', all_days !! d' = Some dn) ds) = 1.
Proof.
  intros Hnd Hd Hdn.
  rewrite (list_filter_iff _ (d =.)).
  - by apply (count_of_NoDup d).
  - intros d'. split; [intros ?; by eapply all_days_inj | by intros <-].
Qed.

Lemma day_hits_none dn ds :
  (∀ d, d ∈ ds → all_days !! d ≠ Some dn) →
  length (filter (λ d', all_days !! d' = Some dn) ds) = 0.
Proof.
  induction ds as [|d ds IH]; intros H; [done|].
  rewrite filter_cons_False by (apply H; by left).
  apply IH. intros d' ?. apply H. by right.
Qed.

(** Any loop whose body appends one name to the cell of its slot. *)
Section appending_loop.
Context {S : Type} (table : S → Table) (body : string → string → S → result S).
Hypothesis body_appends : ∀ sid d s s',
  body sid d s = Ok s' →
  ∃ dn w, all_days !! d = Some dn ∧ append_slot (table s) sid dn w = Ok (table s').

Lemma appending_loop_cells sl s s' sid dn :
  for_each (λ x, body x.1 x.2) sl s = Ok s' →
  ∃ names, length names = hits sid dn sl ∧
           cell (table s') sid dn = (.++ names) <$> cell (table s) sid dn.
Proof.
  revert s. induction sl as [|[sid0 d0] sl IH]; intros s; simpl.
  - intros [= <-]. exists []. split; [done|].
    destruct (cell _ _ _); simpl; by rewrite ?app_nil_r.
  - intros (s1 & Hs1 & Hrest)%bind_Ok.
    destruct (IH _ Hrest) as (names & Hlen & Hcell).
    apply body_appends in Hs1 as (dn0 & w & Hdn0 & Happ).
    apply append_slot_cell in Happ as (l & Hl & Hupd).
    rewrite Hcell, Hupd. unfold hits in *. rewrite filter_cons. simpl.
    destruct (decide (sid = sid0 ∧ dn = dn0)) as [[-> ->]|Hne].
    + exists (w :: names). rewrite decide_True by done. simpl.
      split; [by rewrite Hlen|]. rewrite Hl. simpl. by rewrite <- app_assoc.
    + exists names. rewrite decide_False; [done|].
      intros [-> Hd]. apply Hne. split; [done|]. congruence.
Qed.

End appending_loop.

(** ** One slot of the constrained assigner *)

Lemma commit_Ok asd who dn sid asd' :
  commit asd who dn sid = Ok asd' ↔
  ∃ row, asd !! who = Some row ∧ asd' = <[who := <[dn := Some sid]> row]> asd.
Proof.
  unfold commit. rewrite bind_Ok. setoid_rewrite getitem_Ok. split.
  - intros (row & Hrow & [= <-]). by exists row.
  - intros (row & Hrow & ->). by exists row.
Qed.

Lemma commit_commitment asd who dn sid asd' :
  commit asd who dn sid = Ok asd' →
  ∀ w d, commitment asd' w d
         = if decide (w = who ∧ d = dn) then Some (Some sid) else commitment asd w d.
Proof.
  intros (row & Hrow & ->)%commit_Ok w d. unfold commitment.
  destruct (decide (w = who)) as [->|Hw].
  - rewrite lookup_insert_eq, Hrow. simpl.
    destruct (decide (d = dn)) as [->|Hd].
    + rewrite lookup_insert_eq. by rewrite decide_True.
    + rewrite lookup_insert_ne by done. rewrite decide_False; [done|tauto].
  - rewrite lookup_insert_ne by done. rewrite decide_False; [done|tauto].
Qed.

Lemma commit_total asd who dn sid :
  is_Some (asd !! who) → ∃ asd', commit asd who dn sid = Ok asd'.
Proof. intros [row Hrow]. eexists. apply commit_Ok. by exists row. Qed.

Lemma commit_Raise asd who dn sid e :
  commit asd who dn sid = Raise e → ∃ k, e = KeyError k.
Proof.
  unfold commit. intros [H|(row & _ & [=])]%bind_Raise.
  apply getitem_Raise in H as [-> _]. by eexists.
Qed.

Lemma ineligible_Ok asd dn d e b :
  ineligible asd dn d e = Ok b ↔
  ∃ c, commitment asd (name e) dn = Some c ∧
       b = bool_decide (c ≠ None) || bool_decide (d ∈ unavailable_days e).
Proof.
  unfold ineligible, commitment. rewrite bind_Ok. setoid_rewrite bind_Ok.
  setoid_rewrite getitem_Ok. split.
  - intros (row & Hrow & c & Hc & [= <-]). exists c. by rewrite Hrow.
  - intros (c & Hc & ->). destruct (asd !! name e) as [row|]; [|done].
    exists row. split; [done|]. by exists c.
Qed.

Lemma ineligible_false asd dn d e :
  ineligible asd dn d e = Ok false ↔
  commitment asd (name e) dn = Some None ∧ d ∉ unavailable_days e.
Proof.
  rewrite ineligible_Ok. split.
  - intros (c & Hc & Hb). symmetry in Hb.
    apply orb_false_iff in Hb as [Hc'%bool_decide_eq_false Hd%bool_decide_eq_false].
    split; [|done]. rewrite Hc. f_equal. by destruct c; [destruct Hc'|].
  - intros [Hc Hd]. exists None. split; [done|].
    rewrite (bool_decide_eq_false_2 (d ∈ _)) by done.
    by rewrite bool_decide_eq_false_2 by (intros H; by apply H).
Qed.

Lemma ineligible_Raise asd dn d e ex :
  ineligible asd dn d e = Raise ex → ∃ k, ex = KeyError k.
Proof.
  unfold ineligible.
  intros [H|(row & _ & [H|(l & _ & [=])]%bind_Raise)]%bind_Raise;
    apply getitem_Raise in H as [-> _]; by eexists.
Qed.

(** A successful search stops at the first eligible candidate. *)
Lemma skip_ineligible_Ok asd dn d e stk e' stk' :
  skip_ineligible asd dn d e stk = Ok (e', stk') →
  ∃ skipped, e :: stk = skipped ++ e' :: stk' ∧
             Forall (λ x, ineligible asd dn d x = Ok true) skipped ∧
             ineligible asd dn d e' = Ok false.
Proof.
  revert e. induction stk as [|x stk IH]; intros e; simpl;
    intros ([] & Hbad & H)%bind_Ok; simplify_eq.
  - by exists [].
  - apply IH in H as (skipped & Heq & Hsk & He').
    exists (e :: skipped). rewrite Heq. split; [done|]. split; [by constructor|done].
  - by exists [].
Qed.

(** The search raises the recoverable error exactly when it runs through
    the whole pool without finding an eligible candidate. *)
Lemma skip_ineligible_exhausted asd dn d e stk :
  skip_ineligible asd dn d e stk = Raise (NotEnoughWorkersError not_enough_msg) ↔
  Forall (λ x, ineligible asd dn d x = Ok true) (e :: stk).
Proof.
  revert e. induction stk as [|x stk IH]; intros e; simpl; rewrite bind_Raise.
  - split.
    + intros [H%ineligible_Raise|([] & Hbad & H)]; [by destruct H| |done].
      by repeat constructor.
    + intros [He _]%Forall_cons. right. by exists true.
  - split.
    + intros [H%ineligible_Raise|([] & Hbad & H)]; [by destruct H| |done].
      apply IH in H. by constructor.
    + intros [He Hrest]%Forall_cons. right. exists true. split; [done|].
      by apply IH.
Qed.

Lemma skip_ineligible_Raise asd dn d e stk ex :
  skip_ineligible asd dn d e stk = Raise ex →
  ex = NotEnoughWorkersError not_enough_msg ∨ ∃ k, ex = KeyError k.
Proof.
  revert e. induction stk as [|x stk IH]; intros e; simpl;
    intros [H%ineligible_Raise|([] & Hbad & H)]%bind_Raise; simplify_eq; eauto.
Qed.

Lemma assign_slot_Ok sid d st st' :
  assign_slot sid d st = Ok st' ↔
  ∃ dn e skipped,
    all_days !! d = Some dn ∧
    stack st = skipped ++ e :: stack st' ∧
    Forall (λ x, ineligible (assigned_shifts_per_day st) dn d x = Ok true) skipped ∧
    ineligible (assigned_shifts_per_day st) dn d e = Ok false ∧
    append_slot (assignments st) sid dn (name e) = Ok (assignments st') ∧
    commit (assigned_shifts_per_day st) (name e) dn sid
      = Ok (assigned_shifts_per_day st').
Proof.
  unfold assign_slot. rewrite bind_Ok. setoid_rewrite getitem_Ok. split.
  - intros (dn & Hdn & H). destruct (stack st) as [|e0 stk] eqn:Hstk; [done|].
    apply bind_Ok in H as ([e stk'] & Hskip & H).
    apply bind_Ok in H as (T' & HT' & H).
    apply bind_Ok in H as (asd' & Hasd' & [= <-]). simpl.
    apply skip_ineligible_Ok in Hskip as (skipped & Heq & Hsk & He).
    by exists dn, e, skipped.
  - intros (dn & e & skipped & Hdn & Hstk & Hsk & He & HT' & Hasd').
    exists dn. split; [done|]. rewrite Hstk.
    assert (∀ stk, skip_ineligible (assigned_shifts_per_day st) dn d e stk = Ok (e, stk))
      as Hfound.
    { intros stk. destruct stk; simpl; by rewrite He. }
    assert (∃ e0 stk0, skipped ++ e :: stack st' = e0 :: stk0 ∧
              skip_ineligible (assigned_shifts_per_day st) dn d e0 stk0
              = Ok (e, stack st')) as (e0 & stk0 & -> & ->).
    { clear Hstk. induction Hsk as [|x skipped Hx Hsk IH]; simpl.
      - by exists e, (stack st').
      - exists x, (skipped ++ e :: stack st'). split; [done|].
        destruct IH as (e0 & stk0 & Heq & Hskip). rewrite Heq.
        simpl. rewrite Hx. simpl. done. }
    simpl. rewrite HT'. simpl. rewrite Hasd'. simpl. by destruct st'.
Qed.

(** ** Whole runs of the constrained assigner *)

Lemma fmap_Ok {A B} (f : A → B) (m : result A) b :
  f <$> m = Ok b ↔ ∃ a, m = Ok a ∧ b = f a.
Proof.
  destruct m as [a|e]; simpl; split.
  - intros [= <-]. by exists a.
  - by intros (a' & [= <-] & ->).
  - done.
  - by intros (a' & [=] & _).
Qed.

Lemma fmap_Raise {A B} (f : A → B) (m : result A) e :
  f <$> m = Raise e ↔ m = Raise e.
Proof. destruct m as [a|e']; simpl; split; intros [=]; by subst. Qed.

Lemma assign_schedule_unfold shifts employees g :
  (assign_schedule shifts employees g).1
  = assignments <$> run_slots (slots shifts) (initial_state shifts employees g).
Proof.
  unfold assign_schedule, initial_state, run_slots.
  destruct (employee_list shifts employees g) as [pool g']. simpl.
  f_equal. apply (for_each_slots assign_slot).
Qed.

Lemma occurrences_insert w dn (T : Table) sid row row' :
  T !! sid = Some row →
  occurrences w dn (<[sid := row']> T) + count_of w (default [] (row !! dn))
  = occurrences w dn T + count_of w (default [] (row' !! dn)).
Proof.
  intros Hrow. unfold occurrences.
  rewrite <- (insert_delete_eq T sid row').
  rewrite map_to_list_insert by apply lookup_delete_eq.
  rewrite <- (map_to_list_delete T sid row) by done. simpl. lia.
Qed.

Lemma count_of_snoc (w who : string) l :
  count_of w (l ++ [who]) = count_of w l + (if decide (w = who) then 1 else 0).
Proof.
  rewrite count_of_app. f_equal. unfold count_of.
  destruct (decide (w = who)).
  - by rewrite filter_cons_True.
  - by rewrite filter_cons_False.
Qed.

Lemma occurrences_append T sid dn' who T' w dn :
  append_slot T sid dn' who = Ok T' →
  occurrences w dn T'
  = occurrences w dn T + (if decide (w = who ∧ dn = dn') then 1 else 0).
Proof.
  intros (row & l & Hrow & Hl & ->)%append_slot_Ok.
  pose proof (occurrences_insert w dn T sid row (<[dn' := l ++ [who]]> row) Hrow) as H.
  destruct (decide (dn = dn')) as [->|Hdn].
  - rewrite lookup_insert_eq, Hl in H. simpl in H. rewrite count_of_snoc in H.
    destruct (decide (w = who)).
    + rewrite decide_True by done. lia.
    + rewrite decide_False by tauto. lia.
  - rewrite lookup_insert_ne in H by done. rewrite decide_False by tauto. lia.
Qed.

Lemma occurrences_initial w dn shifts :
  occurrences w dn (initial_assignments shifts) = 0.
Proof.
  unfold occurrences.
  assert (Forall (λ kv : string * gmap string (list string),
            count_of w (default [] (kv.2 !! dn)) = 0)
            (map_to_list (initial_assignments shifts))) as H.
  { apply Forall_forall. intros [sid row] Hin%elem_of_map_to_list. simpl.
    unfold initial_assignments in Hin. rewrite dict_comp_const_lookup in Hin.
    destruct (decide _); simplify_eq. rewrite empty_week_lookup.
    by destruct (decide _). }
  induction H as [|kv l Hkv _ IH]; simpl; [done|]. by rewrite Hkv, IH.
Qed.

Lemma assign_slot_booked_once sid d st st' :
  booked_once st → assign_slot sid d st = Ok st' → booked_once st'.
Proof.
  intros Hinv (dn0 & e & skipped & Hdn0 & _ & _ & He & HT & Hasd)%assign_slot_Ok w dn.
  apply ineligible_false in He as [Hfree _].
  rewrite (occurrences_append _ _ _ _ _ w dn HT).
  rewrite (commit_commitment _ _ _ _ _ Hasd w dn).
  destruct (Hinv w dn) as [Hle Hzero].
  destruct (decide (w = name e ∧ dn = dn0)) as [[-> ->]|Hne].
  - rewrite (proj2 (Hinv (name e) dn0)) by done. split; [lia|done].
  - split; [lia|]. intros Hc. rewrite Hzero by done. lia.
Qed.

Lemma run_slots_booked_once sl st st' :
  booked_once st → run_slots sl st = Ok st' → booked_once st'.
Proof.
  intros Hst Hrun. eapply (for_each_invariant booked_once); [|done..].
  intros [sid d] t t' _. apply assign_slot_booked_once.
Qed.

Lemma initial_state_booked_once shifts employees g :
  booked_once (initial_state shifts employees g).
Proof. intros w dn. simpl. rewrite occurrences_initial. split; [lia|done]. Qed.

(** C1.  When [assign_schedule] returns a table for workers with
    pairwise-distinct names, every worker name is listed at most once on
    every weekday, counting over all the shifts of the table. *)
Theorem no_double_booking (shifts : list Shift) (employees : list Employee) (g : gen)
    (T : Table) (w dn : string) :
  NoDup (name <$> employees) →
  (assign_schedule shifts employees g).1 = Ok T →
  occurrences w dn T ≤ 1.
Proof.
  (* commitments are kept per name, so the names need not be distinct *)
  intros _. rewrite assign_schedule_unfold. intros (st' & Hrun & ->)%fmap_Ok.
  eapply run_slots_booked_once in Hrun; [|apply initial_state_booked_once].
  apply Hrun.
Qed.

(** ** Unavailability *)

Lemma assign_slot_candidates_known employees sid d st st' :
  candidates_known employees st → assign_slot sid d st = Ok st' →
  candidates_known employees st'.
Proof.
  intros [Hav Hstk] (dn0 & e & skipped & Hdn0 & Heq & _ & He & HT & _)%assign_slot_Ok.
  apply ineligible_false in He as [_ Hd].
  assert (e ∈ employees) as Hemp.
  { apply Hstk. rewrite Heq. apply elem_of_app. right. by left. }
  split.
  - intros sid' dn l n Hcell Hn.
    apply append_slot_cell in HT as (l0 & Hl0 & Hupd). rewrite Hupd in Hcell.
    destruct (decide (sid' = sid ∧ dn = dn0)) as [[-> ->]|Hne]; [|by eapply Hav].
    injection Hcell as <-. apply elem_of_app in Hn as [Hn|Hn]; [by eapply Hav|].
    apply list_elem_of_singleton in Hn as ->.
    exists e. split_and!; [done..|].
    intros d' Hd'. by rewrite (all_days_inj d' d dn0).
  - intros x Hx. apply Hstk. rewrite Heq. apply elem_of_app. right. by right.
Qed.

Lemma initial_state_candidates_known shifts employees g :
  candidates_known employees (initial_state shifts employees g).
Proof.
  split; unfold initial_state; cbn [assignments stack].
  - intros sid dn l n Hcell Hn. rewrite initial_assignments_cell in Hcell.
    destruct (decide _); simplify_eq. inversion Hn.
  - intros e He. rewrite elem_of_reverse in He. by eapply employee_list_elem.
Qed.

Lemma assign_schedule_only_available shifts employees g T :
  (assign_schedule shifts employees g).1 = Ok T → only_available employees T.
Proof.
  rewrite assign_schedule_unfold. intros (st' & Hrun & ->)%fmap_Ok.
  eapply (for_each_invariant (candidates_known employees)) in Hrun.
  - apply Hrun.
  - intros [sid d] t t' _. apply assign_slot_candidates_known.
  - apply initial_state_candidates_known.
Qed.

Lemma NoDup_names_inj (employees : list Employee) e1 e2 :
  NoDup (name <$> employees) → e1 ∈ employees → e2 ∈ employees →
  name e1 = name e2 → e1 = e2.
Proof.
  induction employees as [|e employees IH]; intros Hnd H1 H2 Heq.
  - by apply elem_of_nil in H1.
  - rewrite fmap_cons in Hnd. apply NoDup_cons in Hnd as [He Hnd].
    apply elem_of_cons in H1 as [->|H1]; apply elem_of_cons in H2 as [->|H2].
    + done.
    + destruct He. rewrite Heq. by apply list_elem_of_fmap_2.
    + destruct He. rewrite <- Heq. by apply list_elem_of_fmap_2.
    + by apply IH.
Qed.

(** C2 (amended).  When [assign_schedule] returns a table for workers
    with pairwise-distinct names, no worker is listed on a weekday of
    their unavailable set. *)
Theorem unavailability_respected_distinct_names (shifts : list Shift)
    (employees : list Employee) (g : gen) (T : Table) :
  NoDup (name <$> employees) →
  (assign_schedule shifts employees g).1 = Ok T →
  unavailability_respected employees T.
Proof.
  intros Hnd HT%assign_schedule_only_available w d dn sid l Hw Hd Hdn Hcell Hin.
  destruct (HT sid dn l (name w) Hcell Hin) as (e & He & Hname & Hfree).
  assert (e = w) as -> by by apply (NoDup_names_inj employees).
  by apply (Hfree d).
Qed.

(** C2 as stated, for every list of workers, fails: the second Bob takes
    the Monday slot, so the name of the first Bob, who is unavailable on
    Monday, is listed on Monday. *)
Lemma unavailability_fails_same_name :
  ∃ T, (assign_schedule [monday_shift] same_name_employees []).1 = Ok T ∧
       ¬ unavailability_respected same_name_employees T.
Proof.
  eexists. split; [reflexivity|]. intros H.
  apply (H {| name := "Bob"; unavailable_days := ["1"] |} "1" "Monday" "Open" ["Bob"]).
  - by left.
  - by left.
  - by vm_compute.
  - by vm_compute.
  - by left.
Qed.

(** ** What both assigners do to the table *)

Lemma for_each_Ok_each {A S} (body : A → S → result S) xs s s' x :
  for_each body xs s = Ok s' → x ∈ xs → ∃ t t', body x t = Ok t'.
Proof.
  revert s. induction xs as [|y xs IH]; intros s; simpl.
  - intros _ Hx. inversion Hx.
  - intros (t & Ht & Hrest)%bind_Ok [->|Hx]%elem_of_cons; [by exists s, t|].
    by apply (IH t).
Qed.

Lemma elem_of_slots shifts s d :
  s ∈ shifts → d ∈ days s → (shift s, d) ∈ slots shifts.
Proof.
  intros Hs Hd. unfold slots. apply list_elem_of_bind. exists s.
  split; [|done]. by apply list_elem_of_fmap_2.
Qed.

Lemma assign_slot_without_preferences_Ok sid d st st' :
  assign_slot_without_preferences sid d st = Ok st' ↔
  ∃ dn w, all_days !! d = Some dn ∧ next st.2 = Ok (w, st'.2) ∧
          append_slot st.1 sid dn w = Ok st'.1.
Proof.
  unfold assign_slot_without_preferences. rewrite bind_Ok.
  setoid_rewrite getitem_Ok. split.
  - intros (dn & Hdn & ([w it] & Hnext & (T' & HT' & [= <-])%bind_Ok)%bind_Ok).
    by exists dn, w.
  - intros (dn & w & Hdn & Hnext & HT'). exists dn. split; [done|].
    rewrite Hnext. simpl. rewrite HT'. simpl. by destruct st'.
Qed.

Lemma assign_schedule_without_preferences_unfold shifts employees g :
  (assign_schedule_without_preferences shifts employees g).1
  = fst <$> for_each (λ x, assign_slot_without_preferences x.1 x.2) (slots shifts)
              (initial_assignments shifts,
               itertools_cycle (random_shuffle (name <$> employees) g).1).
Proof.
  unfold assign_schedule_without_preferences.
  destruct (random_shuffle (name <$> employees) g) as [available g']. simpl.
  f_equal. apply (for_each_slots assign_slot_without_preferences).
Qed.

(** A returned table has, in each cell, one name per slot of that cell. *)
Lemma returned_cells shifts employees g T sid dn :
  returns_table shifts employees g T →
  ∃ names, length names = hits sid dn (slots shifts) ∧
           cell T sid dn
           = if decide (sid ∈ shift <$> shifts ∧ dn ∈ all_days_values)
             then Some names else None.
Proof.
  intros [HT|HT].
  - rewrite assign_schedule_unfold in HT. apply fmap_Ok in HT as (st' & Hrun & ->).
    eapply (appending_loop_cells assignments assign_slot) in Hrun
      as (names & Hlen & Hcell).
    + exists names. split; [done|]. rewrite Hcell. simpl.
      rewrite initial_assignments_cell. by destruct (decide _).
    + intros sid' d s s' (dn' & e & _ & Hdn' & _ & _ & _ & Happ & _)%assign_slot_Ok.
      by exists dn', (name e).
  - rewrite assign_schedule_without_preferences_unfold in HT.
    apply fmap_Ok in HT as (st' & Hrun & ->).
    eapply (appending_loop_cells fst assign_slot_without_preferences) in Hrun
      as (names & Hlen & Hcell).
    + exists names. split; [done|]. rewrite Hcell. simpl.
      rewrite initial_assignments_cell. by destruct (decide _).
    + intros sid' d s s'
        (dn' & w & Hdn' & _ & Happ)%assign_slot_without_preferences_Ok.
      by exists dn', w.
Qed.

(** A returned table was built from weekday indices only. *)
Lemma returned_days_valid shifts employees g T s d :
  returns_table shifts employees g T → s ∈ shifts → d ∈ days s →
  ∃ dn, all_days !! d = Some dn.
Proof.
  intros HT Hs Hd. pose proof (elem_of_slots _ _ _ Hs Hd) as Hslot.
  destruct HT as [HT|HT].
  - rewrite assign_schedule_unfold in HT. apply fmap_Ok in HT as (st' & Hrun & _).
    destruct (for_each_Ok_each _ _ _ _ _ Hrun Hslot) as (t & t' & Hbody).
    apply assign_slot_Ok in Hbody as (dn & _ & _ & Hdn & _). by exists dn.
  - rewrite assign_schedule_without_preferences_unfold in HT.
    apply fmap_Ok in HT as (st' & Hrun & _).
    destruct (for_each_Ok_each _ _ _ _ _ Hrun Hslot) as (t & t' & Hbody).
    apply assign_slot_without_preferences_Ok in Hbody as (dn & _ & Hdn & _).
    by exists dn.
Qed.

(** C3.  With pairwise-distinct shift identifiers and no day repeated
    inside a shift, a table returned by either assigner lists exactly
    one worker in the cell of every active (shift, day) slot. *)
Theorem full_coverage (shifts : list Shift) (employees : list Employee) (g : gen)
    (T : Table) (s : Shift) (d : string) :
  NoDup (shift <$> shifts) →
  (∀ s', s' ∈ shifts → NoDup (days s')) →
  returns_table shifts employees g T →
  s ∈ shifts → d ∈ days s →
  ∃ dn w, all_days !! d = Some dn ∧ cell T (shift s) dn = Some [w].
Proof.
  intros Hids Hdays HT Hs Hd.
  destruct (returned_days_valid _ _ _ _ _ _ HT Hs Hd) as (dn & Hdn).
  destruct (returned_cells _ _ _ _ (shift s) dn HT) as (names & Hlen & Hcell).
  rewrite hits_slots_NoDup in Hlen by done.
  rewrite (day_hits_once d) in Hlen by auto.
  destruct names as [|w [|? ?]]; simplify_eq/=.
  exists dn, w. split; [done|]. rewrite Hcell, decide_True; [done|].
  split; [by apply list_elem_of_fmap_2 | by eapply all_days_value].
Qed.

(** C10.  With pairwise-distinct shift identifiers, a table returned by
    either assigner has a row for every shift identifier; the row maps
    each of the seven weekday names to a list, and that list is empty
    for the weekdays the shift is not active on. *)
Theorem full_week_rows (shifts : list Shift) (employees : list Employee) (g : gen)
    (T : Table) (s : Shift) :
  NoDup (shift <$> shifts) →
  returns_table shifts employees g T →
  s ∈ shifts →
  ∃ row, T !! shift s = Some row ∧
    ∀ dn, dn ∈ all_days_values →
      ∃ l, row !! dn = Some l ∧
           ((∀ d, d ∈ days s → all_days !! d ≠ Some dn) → l = []).
Proof.
  intros Hids HT Hs.
  assert (∀ dn, dn ∈ all_days_values →
    ∃ l, cell T (shift s) dn = Some l ∧
         ((∀ d, d ∈ days s → all_days !! d ≠ Some dn) → l = [])) as Hcells.
  { intros dn Hdn.
    destruct (returned_cells _ _ _ _ (shift s) dn HT) as (names & Hlen & Hcell).
    exists names. rewrite Hcell, decide_True
      by (split; [by apply list_elem_of_fmap_2 | done]).
    split; [done|]. intros Hoff.
    rewrite hits_slots_NoDup, day_hits_none in Hlen by done.
    by destruct names. }
  destruct (Hcells "Monday") as (l & Hl & _); [by left|].
  unfold cell in *. destruct (T !! shift s) as [row|]; [|done].
  exists row. split; [done|]. intros dn Hdn. by apply Hcells.
Qed.

(** ** The two ways a slot can exhaust the pool *)

(** The fatal exit: the pool is empty when the slot asks for its first
    candidate. *)
Lemma assign_slot_fatal sid d st :
  assign_slot sid d st = Raise (SystemExit 1) ↔
  is_Some (all_days !! d) ∧ stack st = [].
Proof.
  unfold assign_slot, getitem at 1. destruct (all_days !! d) as [dn|]; simpl.
  - destruct (stack st) as [|e stk].
    + split; [intros _; split; [by eexists|done] | done].
    + split; [|by intros [_ [=]]]. intros H. exfalso.
      apply bind_Raise in H as [H|([e' stk'] & _ & H)].
      { by apply skip_ineligible_Raise in H as [H|[k H]]. }
      apply bind_Raise in H as [H|(T' & _ & H)].
      { by apply append_slot_Raise in H as [k H]. }
      apply bind_Raise in H as [H|(asd' & _ & H)]; [|done].
      by apply commit_Raise in H as [k H].
  - split; [done|]. by intros [[? [=]] _].
Qed.

(** The recoverable error: the pool is not empty, but nobody left in it
    is eligible for the slot. *)
Lemma assign_slot_recoverable sid d st :
  assign_slot sid d st = Raise (NotEnoughWorkersError not_enough_msg) ↔
  ∃ dn, all_days !! d = Some dn ∧ stack st ≠ [] ∧
        Forall (λ x, ineligible (assigned_shifts_per_day st) dn d x = Ok true)
               (stack st).
Proof.
  unfold assign_slot, getitem at 1. destruct (all_days !! d) as [dn|]; simpl.
  - destruct (stack st) as [|e stk].
    + split; [done|]. by intros (dn' & _ & H & _).
    + rewrite bind_Raise, skip_ineligible_exhausted. split.
      * intros [H|([e' stk'] & _ & H)]; [by exists dn|]. exfalso.
        apply bind_Raise in H as [H|(T' & _ & H)].
        { by apply append_slot_Raise in H as [k H]. }
        apply bind_Raise in H as [H|(asd' & _ & H)]; [|done].
        by apply commit_Raise in H as [k H].
      * intros (dn' & [= <-] & _ & H). by left.
  - split; [done|]. by intros (dn' & [=] & _).
Qed.

(** ** A single worker *)

Lemma single_worker_pool shifts w g :
  (employee_list shifts [w] g).1 = replicate (length shifts * 7) w.
Proof.
  unfold employee_list. change (length all_days_items) with 7.
  destruct (sample_rounds_blocks (length shifts * 7) [w] g) as [Hlen Hblocks].
  destruct (sample_rounds _ [w] g) as [blocks g']. simpl in *.
  rewrite <- Hlen. clear Hlen.
  induction Hblocks as [|block blocks Hb _ IH]; simpl; [done|].
  apply Permutation_singleton_r in Hb as ->. simpl. by rewrite IH.
Qed.

Lemma no_worker_pool shifts g : (employee_list shifts [] g).1 = [].
Proof.
  unfold employee_list.
  destruct (sample_rounds_blocks (length shifts * length all_days_items)
              (@nil Employee) g) as [_ Hblocks].
  destruct (sample_rounds _ [] g) as [blocks g']. simpl in *.
  induction Hblocks as [|block blocks Hb _ IH]; simpl; [done|].
  by apply Permutation_nil_r in Hb as ->.
Qed.

Lemma single_worker_initial_state shifts w g :
  initial_state shifts [w] g
  = LoopState (initial_assignments shifts) (initial_commitments [w])
              (replicate (length shifts * 7) w).
Proof.
  unfold initial_state. by rewrite single_worker_pool, reverse_replicate.
Qed.

(** A worker with no unavailable day takes the slots of pairwise
    different weekdays one after the other, as long as the pool lasts. *)
Lemma single_worker_progress sid w ds st k :
  NoDup ds → unavailable_days w = [] →
  stack st = replicate k w → length ds ≤ k →
  (∀ d, d ∈ ds →
     ∃ dn, all_days !! d = Some dn ∧
           commitment (assigned_shifts_per_day st) (name w) dn = Some None ∧
           is_Some (cell (assignments st) sid dn)) →
  ∃ st', run_slots (pair sid <$> ds) st = Ok st'.
Proof.
  intros Hnd Hfree. revert st k Hnd.
  induction ds as [|d ds IH]; intros st k Hnd Hstk Hlen Hds.
  { by exists st. }
  apply NoDup_cons in Hnd as [Hd Hnd].
  destruct k as [|k]; simpl in Hlen; [lia|].
  destruct (Hds d) as (dn & Hdn & Hc & Hcell); [by left|].
  destruct (append_slot_total _ _ _ (name w) Hcell) as [T1 HT1].
  destruct (commit_total (assigned_shifts_per_day st) (name w) dn sid) as [asd1 Hasd1].
  { unfold commitment in Hc. by destruct (_ !! name w). }
  assert (assign_slot sid d st = Ok (LoopState T1 asd1 (replicate k w))) as Hslot.
  { apply assign_slot_Ok. exists dn, w, []. split_and!; try done.
    apply ineligible_false. split; [done|]. rewrite Hfree. apply not_elem_of_nil. }
  destruct (IH (LoopState T1 asd1 (replicate k w)) k) as [st' Hst']; [done..|lia| |].
  - intros d' Hd'. destruct (Hds d') as (dn' & Hdn' & Hc' & Hcell'); [by right|].
    assert (dn' ≠ dn) as Hne.
    { intros ->. apply Hd. by rewrite (all_days_inj d d' dn). }
    exists dn'. split; [done|]. simpl.
    rewrite (commit_commitment _ _ _ _ _ Hasd1), decide_False by tauto.
    apply append_slot_cell in HT1 as (l & _ & Hupd).
    rewrite Hupd, decide_False by tauto. done.
  - exists st'. unfold run_slots in *. simpl. by rewrite Hslot.
Qed.

(** C4.  Two shifts, each active on Monday only, and one worker with no
    unavailable day: whatever the shuffling draws, [assign_schedule]
    raises [NotEnoughWorkersError] (it neither double-books the worker
    nor exits). *)
Theorem two_monday_shifts_one_worker (id1 start1 end1 id2 start2 end2 who : string)
    (g : gen) :
  (assign_schedule
     [ {| shift := id1; start := start1; end_ := end1; days := ["1"] |};
       {| shift := id2; start := start2; end_ := end2; days := ["1"] |} ]
     [ {| name := who; unavailable_days := [] |} ] g).1
  = Raise (NotEnoughWorkersError not_enough_msg).
Proof.
  set (s1 := {| shift := id1; days := ["1"] |}).
  set (s2 := {| shift := id2; days := ["1"] |}).
  set (w := {| name := who; unavailable_days := [] |}).
  rewrite assign_schedule_unfold, single_worker_initial_state.
  change (slots [s1; s2]) with [(id1, "1"); (id2, "1")].
  change (length [s1; s2] * 7) with 14.
  set (st0 := LoopState _ _ _).
  assert (all_days !! "1" = Some "Monday") as Hmon by by vm_compute.
  (* the first slot takes the worker *)
  destruct (append_slot_total (assignments st0) id1 "Monday" who) as [T1 HT1].
  { simpl. rewrite initial_assignments_cell, decide_True; [done|].
    split; [by left | by eapply all_days_value]. }
  destruct (commit_total (assigned_shifts_per_day st0) who "Monday" id1)
    as [asd1 Hasd1].
  { simpl. unfold initial_commitments. rewrite dict_comp_const_lookup.
    rewrite decide_True; [done|by left]. }
  assert (assign_slot id1 "1" st0 = Ok (LoopState T1 asd1 (replicate 13 w))) as Hslot1.
  { apply assign_slot_Ok. exists "Monday", w, []. split_and!; try done.
    apply ineligible_false. split; [|apply not_elem_of_nil].
    simpl. rewrite initial_commitments_commitment, decide_True; [done|].
    split; [by left | by eapply all_days_value]. }
  (* the second one finds the worker committed, thirteen times over *)
  assert (assign_slot id2 "1" (LoopState T1 asd1 (replicate 13 w))
          = Raise (NotEnoughWorkersError not_enough_msg)) as Hslot2.
  { apply assign_slot_recoverable. exists "Monday". split_and!; try done.
    apply Forall_replicate, ineligible_Ok. exists (Some id1). split; [|done].
    simpl. rewrite (commit_commitment _ _ _ _ _ Hasd1), decide_True; done. }
  unfold run_slots. cbn [for_each fst snd]. rewrite Hslot1.
  change (Ok ?a ≫= ?f) with (f a). cbn beta. by rewrite Hslot2.
Qed.

(** C9.  One shift active on each of the seven days once, and one worker
    with no unavailable day: whatever the shuffling draws,
    [assign_schedule] returns, and the table lists exactly that worker
    in the shift's cell of every weekday. *)
Theorem one_shift_whole_week (sid start0 end0 who : string) (ds : list string)
    (g : gen) :
  ds ≡ₚ ["1"; "2"; "3"; "4"; "5"; "6"; "7"] →
  ∃ T,
    (assign_schedule
       [ {| shift := sid; start := start0; end_ := end0; days := ds |} ]
       [ {| name := who; unavailable_days := [] |} ] g).1 = Ok T ∧
    ∀ dn, dn ∈ all_days_values → cell T sid dn = Some [who].
Proof.
  intros Hds.
  set (s := {| shift := sid; days := ds |}).
  set (w := {| name := who; unavailable_days := [] |}).
  assert (NoDup ds) as Hnd.
  { rewrite Hds. by apply (bool_decide_unpack _). }
  assert (∀ d dn, all_days !! d = Some dn → d ∈ ds) as Hall.
  { intros d dn Hd%all_days_cases. rewrite Hds.
    change (d ∈ all_days_items.*1). apply list_elem_of_fmap. by exists (d, dn). }
  assert (∀ d, d ∈ ds → is_Some (all_days !! d)) as Hvalid.
  { intros d Hd. rewrite Hds in Hd. apply list_elem_of_In in Hd. simpl in Hd.
    repeat (destruct Hd as [<-|Hd]; [by eexists|]). destruct Hd. }
  destruct (single_worker_progress sid w ds (initial_state [s] [w] g) 7)
    as [st' Hrun]; [done..| | | |].
  { by rewrite single_worker_initial_state. }
  { by rewrite Hds. }
  { intros d Hd. destruct (Hvalid d Hd) as [dn Hdn]. exists dn. split; [done|].
    rewrite single_worker_initial_state. simpl.
    rewrite initial_commitments_commitment, initial_assignments_cell.
    rewrite !decide_True; [done|split..]; try by left.
    all: by eapply all_days_value. }
  assert ((assign_schedule [s] [w] g).1 = Ok (assignments st')) as HT.
  { rewrite assign_schedule_unfold. unfold slots. simpl. rewrite app_nil_r.
    by rewrite Hrun. }
  exists (assignments st'). split; [done|]. intros dn Hdn.
  destruct (all_days_key dn Hdn) as [d Hd].
  (* the cell is hit once, by the day [d] of the only shift *)
  destruct (returned_cells [s] [w] g (assignments st') sid dn (or_introl HT))
    as (names & Hlen & Hcell).
  change sid with (shift s) in Hlen at 1.
  rewrite (hits_slots_NoDup s dn [s]) in Hlen;
    [|apply NoDup_singleton|by left].
  rewrite (day_hits_once d) in Hlen by eauto.
  rewrite decide_True in Hcell by (split; [by left|done]).
  destruct names as [|w' [|? ?]]; [done| |done].
  rewrite Hcell. do 2 f_equal.
  (* and the name in it is the name of the only worker *)
  destruct (assign_schedule_only_available _ _ _ _ HT sid dn [w'] w' Hcell)
    as (e & He & <- & _); [by left|].
  by apply list_elem_of_singleton in He as ->.
Qed.

(** C5.  The two pool-exhaustion outcomes of [assign_schedule].  The run
    exits ([SystemExit]) exactly when, the earlier slots having been
    filled, the pool is empty as a slot asks for its first candidate; it
    raises [NotEnoughWorkersError] exactly when a slot starts on a
    non-empty pool in which no candidate is eligible, so that the pool
    runs out during the search.  With no worker at all, a first slot on
    a weekday makes the run exit. *)
Theorem pool_exhaustion_outcomes (shifts : list Shift) (employees : list Employee)
    (g : gen) :
  let outcome := (assign_schedule shifts employees g).1 in
  let st0 := initial_state shifts employees g in
  (outcome = Raise (SystemExit 1) ↔
     ∃ pre sid d post st,
       slots shifts = pre ++ (sid, d) :: post ∧ run_slots pre st0 = Ok st ∧
       is_Some (all_days !! d) ∧ stack st = []) ∧
  (outcome = Raise (NotEnoughWorkersError not_enough_msg) ↔
     ∃ pre sid d post st dn,
       slots shifts = pre ++ (sid, d) :: post ∧ run_slots pre st0 = Ok st ∧
       all_days !! d = Some dn ∧ stack st ≠ [] ∧
       Forall (λ x, ineligible (assigned_shifts_per_day st) dn d x = Ok true)
              (stack st)) ∧
  (employees = [] →
   ∀ sid d rest, slots shifts = (sid, d) :: rest → is_Some (all_days !! d) →
   outcome = Raise (SystemExit 1)).
Proof.
  intros outcome st0.
  assert (∀ e, outcome = Raise e ↔
    ∃ pre sid d post st, slots shifts = pre ++ (sid, d) :: post ∧
      run_slots pre st0 = Ok st ∧ assign_slot sid d st = Raise e) as Hraise.
  { intros e. unfold outcome. rewrite assign_schedule_unfold, fmap_Raise.
    unfold run_slots. rewrite for_each_Raise. split.
    - intros (pre & [sid d] & post & st & H). by exists pre, sid, d, post, st.
    - intros (pre & sid & d & post & st & H). by exists pre, (sid, d), post, st. }
  assert (outcome = Raise (SystemExit 1) ↔
     ∃ pre sid d post st,
       slots shifts = pre ++ (sid, d) :: post ∧ run_slots pre st0 = Ok st ∧
       is_Some (all_days !! d) ∧ stack st = []) as Hfatal.
  { rewrite Hraise. by setoid_rewrite assign_slot_fatal. }
  split_and!; [done| |].
  - rewrite Hraise. setoid_rewrite assign_slot_recoverable. split.
    + intros (pre & sid & d & post & st & Hsl & Hrun & dn & H).
      by exists pre, sid, d, post, st, dn.
    + intros (pre & sid & d & post & st & dn & Hsl & Hrun & H).
      exists pre, sid, d, post, st. split_and!; [done..|]. by exists dn.
  - intros -> sid d rest Hsl Hd. apply Hfatal.
    exists [], sid, d, rest, st0. split_and!; try done.
    unfold st0, initial_state. cbn [stack]. by rewrite no_worker_pool.
Qed.

(** ** FallbackAssigner: round robin over the shuffled names *)

Lemma append_slot_assign_to T sid dn w :
  is_Some (cell T sid dn) → append_slot T sid dn w = Ok (assign_to T sid dn w).
Proof.
  unfold cell. intros [l Hl].
  destruct (T !! sid) as [row|] eqn:Hrow; [|done]. simpl in Hl.
  apply append_slot_Ok. exists row, l. split_and!; [done..|].
  unfold assign_to. apply map_eq. intros k.
  destruct (decide (k = sid)) as [->|Hk].
  - rewrite lookup_alter_eq, lookup_insert_eq, Hrow. simpl. f_equal.
    apply map_eq. intros k'. destruct (decide (k' = dn)) as [->|Hk'].
    + by rewrite lookup_alter_eq, lookup_insert_eq, Hl.
    + by rewrite lookup_alter_ne, lookup_insert_ne.
  - by rewrite lookup_alter_ne, lookup_insert_ne.
Qed.

Lemma cycle_wraps n a :
  0 < n → (if decide (S (a `mod` n) = n) then 0 else S (a `mod` n)) = S a `mod` n.
Proof.
  intros Hn. pose proof (Nat.div_mod_eq a n) as Ha.
  assert (a `mod` n < n) as Hr by (apply Nat.mod_upper_bound; lia).
  set (r := a `mod` n) in *. set (q := a `div` n) in *. clearbody r q.
  destruct (decide (S r = n)) as [Hwrap|Hnext].
  - replace (S a) with ((q + 1) * n) by nia. symmetry. apply Nat.Div0.mod_mul.
  - replace (S a) with (S r + q * n) by lia.
    rewrite Nat.Div0.mod_add. symmetry. apply Nat.mod_small. lia.
Qed.

Lemma next_cycle seq a :
  0 < length seq →
  next (Cycle seq (a `mod` length seq))
  = Ok (seq !!! (a `mod` length seq), Cycle seq (S a `mod` length seq)).
Proof.
  intros Hn. unfold next. simpl.
  destruct (lookup_lt_is_Some_2 seq (a `mod` length seq)) as [x Hx].
  { apply Nat.mod_upper_bound. lia. }
  rewrite Hx, (list_lookup_total_correct _ _ _ Hx). by rewrite cycle_wraps.
Qed.

Lemma fallback_run seq sl T k :
  0 < length seq → 1 ≤ k →
  (∀ sid d, (sid, d) ∈ sl →
     ∃ dn, all_days !! d = Some dn ∧ ∀ T', 
       (∀ s' d', is_Some (cell T s' d') → is_Some (cell T' s' d')) →
       is_Some (cell T' sid dn)) →
  for_each (λ x, assign_slot_without_preferences x.1 x.2) sl
           (T, Cycle seq ((k - 1) `mod` length seq))
  = Ok (round_robin_from k seq sl T,
        Cycle seq ((k - 1 + length sl) `mod` length seq)).
Proof.
  intros Hn. revert T k. induction sl as [|[sid d] sl IH]; intros T k Hk Hsl.
  { simpl. by rewrite Nat.add_0_r. }
  destruct (Hsl sid d) as (dn & Hdn & Hcell); [by left|].
  assert (assign_slot_without_preferences sid d (T, Cycle seq ((k - 1) `mod` length seq))
          = Ok (assign_to T sid dn (seq !!! ((k - 1) `mod` length seq)),
                Cycle seq ((S k - 1) `mod` length seq))) as Hslot.
  { apply assign_slot_without_preferences_Ok. exists dn, (seq !!! ((k - 1) `mod` length seq)).
    cbn [fst snd]. split_and!; [done| |].
    - rewrite next_cycle by done. by replace (S k - 1) with (S (k - 1)) by lia.
    - apply append_slot_assign_to, Hcell. auto. }
  cbn [for_each round_robin_from fst snd]. rewrite Hslot.
  change (Ok ?a ≫= ?f) with (f a). cbn beta.
  rewrite (lookup_total_correct _ _ _ Hdn).
  rewrite IH; [|lia|].
  - by replace (S k - 1 + length sl) with (k - 1 + length ((sid, d) :: sl))
      by (simpl; lia).
  - intros sid' d' Hin. destruct (Hsl sid' d') as (dn' & Hdn' & Hcell'); [by right|].
    exists dn'. split; [done|]. intros T' HT'. apply Hcell'.
    intros s0 d0 H0. apply HT'.
    destruct (append_slot_cell T sid dn (seq !!! ((k - 1) `mod` length seq))
                (assign_to T sid dn (seq !!! ((k - 1) `mod` length seq))))
      as (l & Hl & Hupd).
    { apply append_slot_assign_to, Hcell. auto. }
    rewrite Hupd. by destruct (decide _).
Qed.

Lemma elem_of_slots_inv shifts sid d :
  (sid, d) ∈ slots shifts → ∃ s, s ∈ shifts ∧ sid = shift s ∧ d ∈ days s.
Proof.
  unfold slots. intros (s & Hin & Hs)%list_elem_of_bind.
  apply list_elem_of_fmap in Hin as (d' & [= -> ->] & Hd). by exists s.
Qed.

(** On shifts whose day keys are keys of [all_days], the fallback
    assigner computes the round-robin table. *)
Lemma fallback_round_robin_valid shifts employees g :
  employees ≠ [] → valid_shifts shifts →
  (assign_schedule_without_preferences shifts employees g).1
  = Ok (round_robin_table shifts (random_shuffle (name <$> employees) g).1).
Proof.
  intros Hne Hvalid. set (seq := (random_shuffle (name <$> employees) g).1).
  rewrite assign_schedule_without_preferences_unfold. fold seq.
  unfold itertools_cycle, round_robin_table.
  assert (0 < length seq) as Hpos.
  { unfold seq. rewrite random_shuffle_perm, length_fmap.
    destruct employees; [done|simpl; lia]. }
  replace 0 with ((1 - 1) `mod` length seq) at 1 by by rewrite Nat.Div0.mod_0_l.
  rewrite fallback_run; [done..|].
  intros sid d (s & Hs & -> & Hd)%elem_of_slots_inv.
  unfold valid_shifts in Hvalid. rewrite Forall_forall in Hvalid.
  specialize (Hvalid s Hs). rewrite Forall_forall in Hvalid.
  destruct (Hvalid d Hd) as [dn Hdn]. exists dn. split; [done|].
  intros T' HT'. apply HT'. rewrite initial_assignments_cell, decide_True; [done|].
  split; [by apply list_elem_of_fmap_2 | by eapply all_days_value].
Qed.

(** C6.  For a non-empty list of workers and a list of shifts whose day
    keys are all weekday indices, that is, keys of [all_days],
    [assign_schedule_without_preferences] returns, and its table is the
    round-robin table over the one shuffled sequence of the workers'
    names, a permutation of them: the [k]-th slot gets the
    [(k-1) mod n]-th name, whatever the unavailable days and the earlier
    slots of that day. *)
Theorem fallback_round_robin (shifts : list Shift) (employees : list Employee)
    (g : gen) :
  employees ≠ [] → valid_shifts shifts →
  let seq := (random_shuffle (name <$> employees) g).1 in
  seq ≡ₚ name <$> employees ∧
  length seq = length employees ∧
  (assign_schedule_without_preferences shifts employees g).1
  = Ok (round_robin_table shifts seq).
Proof.
  intros Hne Hvalid seq.
  assert (seq ≡ₚ name <$> employees) as Hperm by apply random_shuffle_perm.
  split_and!.
  - done.
  - by rewrite Hperm, length_fmap.
  - by apply fallback_round_robin_valid.
Qed.

(** C6 as stated, for every list of shifts, fails: on a shift whose days
    hold the key ["0"] the fall-back assigner raises [KeyError], with a
    worker present. *)
Lemma fallback_fails_on_day_zero :
  [ {| name := "Dana"; unavailable_days := [] |} ] ≠ [] ∧
  (assign_schedule_without_preferences [monday_twice_day_zero_shift]
     [ {| name := "Dana"; unavailable_days := [] |} ] scenario_tape).1
  = Raise (KeyError "0").
Proof. split; [done|]. by vm_compute. Qed.

(** ** Seeding the generator *)

Lemma take_add_eq {A} n m (l l' : list A) :
  take (n + m) l = take (n + m) l' →
  take n l = take n l' ∧ take m (drop n l) = take m (drop n l').
Proof.
  revert l l'. induction n as [|n IH]; intros l l'; [done|].
  destruct l as [|x l], l' as [|x' l']; simpl; [done..|].
  intros [= <- H]. destruct (IH _ _ H) as [-> ->]. done.
Qed.

Lemma randbelow_draw n k g g' :
  take (S k) g = take (S k) g' →
  (randbelow n g).1 = (randbelow n g').1 ∧
  take k (randbelow n g).2 = take k (randbelow n g').2.
Proof.
  unfold randbelow. destruct g as [|x g], g' as [|x' g']; simpl; [done..|].
  by intros [= <- ->].
Qed.

(** The selection loop reads one draw per item it selects. *)
Lemma sample_loop_draws {A} (left : nat) (pool : list A) g g' :
  take left g = take left g' →
  (sample_loop left pool g).1 = (sample_loop left pool g').1.
Proof.
  revert pool g g'. induction left as [|m IH]; intros pool g g' Hg; [done|].
  cbn [sample_loop].
  destruct (randbelow_draw (S m) m g g' Hg) as [Hj Hrest].
  destruct (randbelow (S m) g) as [j g1], (randbelow (S m) g') as [j' g1'].
  cbn [fst snd] in Hj, Hrest. subst j'.
  destruct (pool !! j) as [x|]; [|done]. destruct (pool !! m) as [y|]; [|done].
  specialize (IH (<[j := y]> pool) g1 g1' Hrest).
  destruct (sample_loop m (<[j := y]> pool) g1) as [r g2],
           (sample_loop m (<[j := y]> pool) g1') as [r' g2'].
  cbn [fst] in *. by rewrite IH.
Qed.

Lemma sample_loop_rest {A} (left : nat) (pool : list A) g :
  left ≤ length pool → (sample_loop left pool g).2 = drop left g.
Proof.
  revert pool g. induction left as [|m IH]; intros pool g Hlen; [done|].
  cbn [sample_loop].
  pose proof (randbelow_lt m g) as Hj.
  assert ((randbelow (S m) g).2 = drop 1 g) as Hg1 by by destruct g.
  destruct (randbelow (S m) g) as [j g1]. cbn [fst snd] in Hj, Hg1.
  destruct (lookup_lt_is_Some_2 pool j) as [x Hx]; [lia|].
  destruct (lookup_lt_is_Some_2 pool m) as [y Hy]; [lia|].
  rewrite Hx, Hy.
  specialize (IH (<[j := y]> pool) g1).
  destruct (sample_loop m (<[j := y]> pool) g1) as [r g2]. cbn [snd] in *.
  rewrite IH by (rewrite length_insert; lia).
  rewrite Hg1, drop_drop. done.
Qed.

(** The rounds of the pool read [len(population)] draws each. *)
Lemma sample_rounds_draws {A} rounds (population : list A) g g' :
  take (rounds * length population) g = take (rounds * length population) g' →
  (sample_rounds rounds population g).1 = (sample_rounds rounds population g').1.
Proof.
  revert g g'. induction rounds as [|r IH]; intros g g' Hg; [done|].
  cbn [sample_rounds]. cbn [Nat.mul] in Hg.
  apply take_add_eq in Hg as [Hblock Hrest].
  pose proof (sample_loop_draws (length population) population g g' Hblock) as Hb.
  pose proof (sample_loop_rest (length population) population g (le_n _)) as Hg1.
  pose proof (sample_loop_rest (length population) population g' (le_n _)) as Hg1'.
  unfold random_sample.
  destruct (sample_loop (length population) population g) as [block g1],
           (sample_loop (length population) population g') as [block' g1'].
  cbn [fst snd] in Hb, Hg1, Hg1'. subst block' g1 g1'.
  specialize (IH _ _ Hrest).
  destruct (sample_rounds r population (drop (length population) g)) as [blocks g2],
           (sample_rounds r population (drop (length population) g')) as [blocks' g2'].
  cbn [fst] in *. by rewrite IH.
Qed.

Lemma assign_schedule_draws shifts employees g g' :
  take (pool_draws shifts employees) g = take (pool_draws shifts employees) g' →
  (assign_schedule shifts employees g).1 = (assign_schedule shifts employees g').1.
Proof.
  intros Hg. unfold assign_schedule, employee_list.
  pose proof (sample_rounds_draws (length shifts * length all_days_items)
                employees g g' Hg) as Hblocks.
  destruct (sample_rounds _ employees g) as [blocks g1],
           (sample_rounds _ employees g') as [blocks' g1'].
  cbn [fst] in *. by rewrite Hblocks.
Qed.

(** The shuffle reads one draw per step. *)
Lemma shuffle_loop_draws {A} i (x : list A) g g' :
  take i g = take i g' → (shuffle_loop i x g).1 = (shuffle_loop i x g').1.
Proof.
  revert x g g'. induction i as [|i IH]; intros x g g' Hg; [done|].
  cbn [shuffle_loop].
  destruct (randbelow_draw (S (S i)) i g g' Hg) as [Hj Hrest].
  destruct (randbelow (S (S i)) g) as [j g1], (randbelow (S (S i)) g') as [j' g1'].
  cbn [fst snd] in Hj, Hrest. subst j'.
  destruct (x !! S i) as [xi|]; [|done]. destruct (x !! j) as [xj|]; [|done].
  by apply IH.
Qed.

Lemma fallback_draws shifts employees g g' :
  take (shuffle_draws employees) g = take (shuffle_draws employees) g' →
  (assign_schedule_without_preferences shifts employees g).1
  = (assign_schedule_without_preferences shifts employees g').1.
Proof.
  intros Hg. rewrite !assign_schedule_without_preferences_unfold.
  unfold random_shuffle, shuffle_draws in *. rewrite length_fmap.
  by rewrite (shuffle_loop_draws _ _ g g' Hg).
Qed.

(** C7.  Two runs of the same assigner on the same shifts and workers,
    each after seeding the generator, have the same outcome (the same
    table, or the same exception) whenever the two seeds make the
    generator give the same draws to the run: the first
    [len(shifts) * 7 * len(employees)] for [assign_schedule], the first
    [len(employees) - 1] for the fall-back assigner.  One and the same
    seed does, so two runs with it agree; nothing else of the generator
    matters, nor does its state before the seeding. *)
Theorem seeded_runs_agree (seed_state : Z → gen) (a b : Z) (shifts : list Shift)
    (employees : list Employee) (g : gen) :
  (take (pool_draws shifts employees) (seed_state a)
   = take (pool_draws shifts employees) (seed_state b) →
   (two_seeded_runs seed_state a b (assign_schedule shifts employees) g).1
   = (two_seeded_runs seed_state a b (assign_schedule shifts employees) g).2) ∧
  (take (shuffle_draws employees) (seed_state a)
   = take (shuffle_draws employees) (seed_state b) →
   (two_seeded_runs seed_state a b
      (assign_schedule_without_preferences shifts employees) g).1
   = (two_seeded_runs seed_state a b
        (assign_schedule_without_preferences shifts employees) g).2).
Proof.
  unfold two_seeded_runs, random_seed. split; intros Hdraws.
  - apply assign_schedule_draws in Hdraws.
    destruct (assign_schedule shifts employees (seed_state a)) as [r1 g1],
             (assign_schedule shifts employees (seed_state b)) as [r2 g2].
    done.
  - apply (fallback_draws shifts) in Hdraws.
    destruct (assign_schedule_without_preferences shifts employees (seed_state a))
      as [r1 g1],
      (assign_schedule_without_preferences shifts employees (seed_state b))
      as [r2 g2].
    done.
Qed.

(** ** The properties at work on concrete runs *)

(** The scenario satisfies the hypotheses of the property on double
    booking. *)
Lemma no_double_booking_witness :
  NoDup (name <$> scenario_employees) ∧
  (assign_schedule scenario_shifts scenario_employees scenario_tape).1
  = Ok scenario_table ∧
  occurrences "Bob" "Monday" scenario_table ≤ 1.
Proof.
  assert (NoDup (name <$> scenario_employees)) as Hnames
    by by apply (bool_decide_unpack _).
  assert ((assign_schedule scenario_shifts scenario_employees scenario_tape).1
          = Ok scenario_table) as Hrun by by vm_compute.
  split_and!; [done..|].
  exact (no_double_booking _ _ _ _ "Bob" "Monday" Hnames Hrun).
Defined.

(** The scenario satisfies the hypotheses of the property on
    unavailability. *)
Lemma unavailability_respected_witness :
  NoDup (name <$> scenario_employees) ∧
  (assign_schedule scenario_shifts scenario_employees scenario_tape).1
  = Ok scenario_table ∧
  unavailability_respected scenario_employees scenario_table.
Proof.
  assert (NoDup (name <$> scenario_employees)) as Hnames
    by by apply (bool_decide_unpack _).
  assert ((assign_schedule scenario_shifts scenario_employees scenario_tape).1
          = Ok scenario_table) as Hrun by by vm_compute.
  split_and!; [done..|].
  exact (unavailability_respected_distinct_names _ _ _ _ Hnames Hrun).
Defined.

(** Coverage of the Tuesday slot of the closing shift in the scenario. *)
Lemma full_coverage_witness :
  NoDup (shift <$> scenario_shifts) ∧
  (∀ s', s' ∈ scenario_shifts → NoDup (days s')) ∧
  returns_table scenario_shifts scenario_employees scenario_tape scenario_table ∧
  ∃ dn w, all_days !! "2" = Some dn ∧ cell scenario_table "Close" dn = Some [w].
Proof.
  assert (NoDup (shift <$> scenario_shifts)) as Hids
    by by apply (bool_decide_unpack _).
  assert (∀ s', s' ∈ scenario_shifts → NoDup (days s')) as Hdays.
  { intros s' Hs'. apply list_elem_of_In in Hs'. simpl in Hs'.
    destruct Hs' as [<-|[<-|[]]]; by apply (bool_decide_unpack _). }
  assert (returns_table scenario_shifts scenario_employees scenario_tape
            scenario_table) as Hrun by (left; by vm_compute).
  split_and!; [done..|].
  refine (full_coverage scenario_shifts scenario_employees scenario_tape
            scenario_table
            {| shift := "Close"; start := "16:00"; end_ := "23:00";
               days := ["1"; "2"] |} "2" Hids Hdays Hrun _ _).
  - right. by left.
  - right. by left.
Defined.

(** The row of the opening shift in the scenario. *)
Lemma full_week_rows_witness :
  NoDup (shift <$> scenario_shifts) ∧
  returns_table scenario_shifts scenario_employees scenario_tape scenario_table ∧
  ∃ row, scenario_table !! "Open" = Some row ∧
    ∀ dn, dn ∈ all_days_values →
      ∃ l, row !! dn = Some l ∧
           ((∀ d, d ∈ ["1"; "2"] → all_days !! d ≠ Some dn) → l = []).
Proof.
  assert (NoDup (shift <$> scenario_shifts)) as Hids
    by by apply (bool_decide_unpack _).
  assert (returns_table scenario_shifts scenario_employees scenario_tape
            scenario_table) as Hrun by (left; by vm_compute).
  split_and!; [done..|].
  refine (full_week_rows scenario_shifts scenario_employees scenario_tape
            scenario_table
            {| shift := "Open"; start := "08:00"; end_ := "16:00";
               days := ["1"; "2"] |} Hids Hrun _).
  by left.
Defined.

(** The whole-week shift with its days listed in order. *)
Lemma one_shift_whole_week_witness :
  ["1"; "2"; "3"; "4"; "5"; "6"; "7"] ≡ₚ ["1"; "2"; "3"; "4"; "5"; "6"; "7"] ∧
  ∃ T,
    (assign_schedule
       [ {| shift := "Desk"; start := "09:00"; end_ := "17:00";
            days := ["1"; "2"; "3"; "4"; "5"; "6"; "7"] |} ]
       [ {| name := "Dana"; unavailable_days := [] |} ] scenario_tape).1 = Ok T ∧
    ∀ dn, dn ∈ all_days_values → cell T "Desk" dn = Some ["Dana"].
Proof.
  split; [reflexivity|].
  apply (one_shift_whole_week "Desk" "09:00" "17:00" "Dana"). reflexivity.
Defined.

(** The fallback assigner on the two shifts of the scenario. *)
Lemma fallback_round_robin_witness :
  scenario_employees ≠ [] ∧ valid_shifts scenario_shifts ∧
  (assign_schedule_without_preferences scenario_shifts scenario_employees
     scenario_tape).1
  = Ok (round_robin_table scenario_shifts
          (random_shuffle (name <$> scenario_employees) scenario_tape).1).
Proof.
  assert (scenario_employees ≠ []) as Hne by done.
  assert (valid_shifts scenario_shifts) as Hvalid by (repeat constructor; by eexists).
  split_and!; [done..|].
  exact (proj2 (proj2 (fallback_round_robin scenario_shifts scenario_employees
                         scenario_tape Hne Hvalid))).
Defined.

(** Two seeds whose generator states agree on the 42 draws of the
    scenario and differ afterwards. *)
Lemma seeded_runs_agree_witness :
  take (pool_draws scenario_shifts scenario_employees) (scenario_seed_state 1)
  = take (pool_draws scenario_shifts scenario_employees) (scenario_seed_state 2) ∧
  scenario_seed_state 1 ≠ scenario_seed_state 2 ∧
  (two_seeded_runs scenario_seed_state 1 2
     (assign_schedule scenario_shifts scenario_employees) []).1
  = (two_seeded_runs scenario_seed_state 1 2
       (assign_schedule scenario_shifts scenario_employees) []).2.
Proof.
  assert (take (pool_draws scenario_shifts scenario_employees) (scenario_seed_state 1)
          = take (pool_draws scenario_shifts scenario_employees) (scenario_seed_state 2))
    as Hdraws by reflexivity.
  split_and!; [done|by vm_compute|].
  exact (proj1 (seeded_runs_agree scenario_seed_state 1 2 scenario_shifts
                  scenario_employees []) Hdraws).
Defined.

(** In the scenario every Monday and Tuesday slot is filled, and Alice
    is not listed on Monday. *)
Example scenario_cells :
  cell scenario_table "Open" "Monday" = Some ["Bob"] ∧
  cell scenario_table "Close" "Monday" = Some ["Carol"] ∧
  cell scenario_table "Open" "Tuesday" = Some ["Carol"] ∧
  cell scenario_table "Close" "Tuesday" = Some ["Alice"].
Proof. by vm_compute. Qed.

(** One shift on Monday and Tuesday, one worker unavailable on Monday:
    the Monday slot raises the recoverable error. *)
Example monday_unavailable_infeasible :
  (assign_schedule
     [ {| shift := "Open"; start := "08:00"; end_ := "16:00"; days := ["1"; "2"] |} ]
     [ {| name := "Alice"; unavailable_days := ["1"] |} ] scenario_tape).1
  = Raise (NotEnoughWorkersError not_enough_msg).
Proof. by vm_compute. Qed.

(** The fatal exit also occurs with workers present: after the seven
    slots of the week the pool of one shift and one worker is used up,
    and the eighth slot finds it empty. *)
Example used_up_pool_exits :
  (assign_schedule [long_shift] [ {| name := "Dana"; unavailable_days := [] |} ]
     scenario_tape).1
  = Raise (SystemExit 1).
Proof. by vm_compute. Qed.

(** The fallback assigner books the only worker twice on Monday. *)
Example fallback_double_books :
  ∃ T,
    (assign_schedule_without_preferences
       [ monday_shift;
         {| shift := "Close"; start := "17:00"; end_ := "23:00"; days := ["1"] |} ]
       [ {| name := "Dana"; unavailable_days := ["1"] |} ] scenario_tape).1 = Ok T ∧
    occurrences "Dana" "Monday" T = 2.
Proof. eexists. split; [reflexivity|]. by vm_compute. Qed.

(** A day key outside [all_days] raises [KeyError] in both assigners. *)
Example day_zero_KeyError :
  (assign_schedule [day_zero_shift] scenario_employees scenario_tape).1
  = Raise (KeyError "0") ∧
  (assign_schedule_without_preferences [day_zero_shift] scenario_employees
     scenario_tape).1
  = Raise (KeyError "0").
Proof. by vm_compute. Qed.
(** * More of the program *)

(** ** Outcomes of the interactive layer *)

Lemma outcome_bind_Done {A B} (m : outcome A) (f : A → outcome B) b :
  m ≫= f = Done b ↔ ∃ a, m = Done a ∧ f a = Done b.
Proof.
  destruct m as [a|e]; simpl; split.
  - intros H. by exists a.
  - by intros (a' & [= <-] & H).
  - done.
  - by intros (a' & [=] & _).
Qed.

Lemma outcome_bind_Fail {A B} (m : outcome A) (f : A → outcome B) e :
  m ≫= f = Fail e ↔ m = Fail e ∨ ∃ a, m = Done a ∧ f a = Fail e.
Proof.
  destruct m as [a|e']; simpl; split.
  - intros H. right. by exists a.
  - by intros [[=] | (a' & [= <-] & H)].
  - intros [= ->]. by left.
  - by intros [[= ->] | (a' & [=] & _)].
Qed.

(** ** Decimal digits *)

Lemma isdecimal_isdigit c : isdecimal_char c = true → isdigit_char c = true.
Proof. unfold isdigit_char. by intros ->. Qed.

Lemma decimal_value_snoc l c :
  decimal_value (l ++ [c])
  = (10 * decimal_value l + (Z.of_nat (nat_of_ascii c) - 48))%Z.
Proof. unfold decimal_value. by rewrite foldl_app. Qed.

Lemma isdecimal_char_range c :
  isdecimal_char c = true ↔ 48 ≤ nat_of_ascii c ≤ 57.
Proof. unfold isdecimal_char. apply bool_decide_eq_true. Qed.

Lemma decimal_value_nonneg l :
  forallb isdecimal_char l = true → (0 ≤ decimal_value l)%Z.
Proof.
  induction l as [|c l IH] using rev_ind; [done|].
  rewrite forallb_app, decimal_value_snoc. simpl.
  intros [Hl [Hc%isdecimal_char_range _]%andb_prop]%andb_prop.
  specialize (IH Hl). lia.
Qed.

Lemma zero_char c : nat_of_ascii c = 48 → c = "0"%char.
Proof. intros H. by rewrite <- (Ascii.ascii_nat_embedding c), H. Qed.

Lemma decimal_value_zero l :
  forallb isdecimal_char l = true →
  decimal_value l = 0%Z ↔ l = replicate (length l) "0"%char.
Proof.
  induction l as [|c l IH] using rev_ind; [done|].
  rewrite forallb_app, decimal_value_snoc, length_app. simpl.
  intros [Hl [Hc%isdecimal_char_range _]%andb_prop]%andb_prop.
  pose proof (decimal_value_nonneg l Hl) as Hpos.
  replace (length l + 1) with (S (length l)) by lia.
  rewrite replicate_S_end. split.
  - intros Hv. assert (decimal_value l = 0%Z) as Hz by lia.
    apply IH in Hz; [|done]. rewrite <- Hz. f_equal. f_equal.
    apply zero_char. lia.
  - intros [Hz ->]%app_inj_tail. apply IH in Hz; [|done].
    rewrite Hz. done.
Qed.

(** A digit string has a value from 1 to 7 exactly when it is one of the
    digits 1 to 7 after any number of zeros. *)
Lemma decimal_value_weekday l :
  forallb isdecimal_char l = true →
  (1 ≤ decimal_value l ≤ 7)%Z ↔
  ∃ k d, l = replicate k "0"%char ++ [d] ∧ 49 ≤ nat_of_ascii d ≤ 55.
Proof.
  destruct l as [|c l _] using rev_ind.
  { intros _. split; [unfold decimal_value; simpl; lia|].
    intros (k & d & H & _). by destruct k. }
  rewrite forallb_app, decimal_value_snoc. simpl.
  intros [Hl [Hc%isdecimal_char_range _]%andb_prop]%andb_prop.
  pose proof (decimal_value_nonneg l Hl) as Hpos. split.
  - intros Hv. assert (decimal_value l = 0%Z) as Hz by lia.
    exists (length l), c. split; [|lia].
    f_equal. by apply decimal_value_zero.
  - intros (k & d & [-> ->]%app_inj_tail & Hd).
    assert (decimal_value (replicate k "0"%char) = 0%Z) as ->; [|lia].
    apply decimal_value_zero; [done|]. by rewrite length_replicate.
Qed.

(** ** [is_valid_day] *)

Lemma weekday_literal_decimal s :
  weekday_literal s →
  list_ascii_of_string s ≠ [] ∧
  forallb isdecimal_char (list_ascii_of_string s) = true.
Proof.
  intros (k & d & -> & Hd). split; [by destruct k|].
  rewrite forallb_app. apply andb_true_intro. split.
  - induction k as [|k IH]; [done|]. simpl. by rewrite IH.
  - simpl. rewrite andb_true_r. apply isdecimal_char_range. lia.
Qed.

Lemma forallb_isdecimal_isdigit l :
  forallb isdecimal_char l = true → forallb isdigit_char l = true.
Proof.
  induction l as [|c l IH]; [done|]. simpl.
  intros [Hc Hl]%andb_prop. by rewrite (isdecimal_isdigit c Hc), IH.
Qed.

Lemma weekday_literal_isdigit s : weekday_literal s → isdigit s = true.
Proof.
  intros [Hne Hdec]%weekday_literal_decimal. unfold isdigit.
  destruct (list_ascii_of_string s) as [|c l] eqn:Hs; [done|].
  by apply forallb_isdecimal_isdigit.
Qed.

Lemma weekday_literal_value s :
  weekday_literal s ↔
  list_ascii_of_string s ≠ [] ∧
  forallb isdecimal_char (list_ascii_of_string s) = true ∧
  (1 ≤ decimal_value (list_ascii_of_string s) ≤ 7)%Z.
Proof.
  split.
  - intros Hlit. destruct (weekday_literal_decimal _ Hlit) as [Hne Hdec].
    split; [done|]. split; [done|]. by apply decimal_value_weekday.
  - intros (_ & Hdec & Hv). by apply decimal_value_weekday.
Qed.

Lemma int_of_str_Done s n :
  int_of_str s = Done n ↔
  list_ascii_of_string s ≠ [] ∧
  forallb isdecimal_char (list_ascii_of_string s) = true ∧
  within_int_limit s ∧
  n = decimal_value (list_ascii_of_string s).
Proof.
  unfold int_of_str, within_int_limit.
  destruct (list_ascii_of_string s) as [|c l].
  { split; [done|]. by intros [? _]. }
  destruct (forallb isdecimal_char (c :: l)).
  - destruct (Nat.ltb_spec int_max_str_digits (length (c :: l))) as [Hlong|Hshort];
      split.
    + done.
    + intros (_ & _ & Hlim & _). lia.
    + by intros [= <-].
    + by intros (_ & _ & _ & ->).
  - split; [done|]. by intros (_ & [=] & _).
Qed.

Lemma int_of_str_Fail s e :
  int_of_str s = Fail e ↔
  e = ValueError ∧
  (list_ascii_of_string s = [] ∨
   forallb isdecimal_char (list_ascii_of_string s) = false ∨
   ¬ within_int_limit s).
Proof.
  unfold int_of_str, within_int_limit.
  destruct (list_ascii_of_string s) as [|c l].
  { split; [intros [= <-]; by split; [|left] | by intros [-> _]]. }
  destruct (forallb isdecimal_char (c :: l)).
  - destruct (Nat.ltb_spec int_max_str_digits (length (c :: l))) as [Hlong|Hshort];
      split.
    + intros [= <-]. split; [done|]. right. right. lia.
    + by intros [-> _].
    + done.
    + intros (_ & [?|[?|Hlim]]); [done..|]. by destruct Hlim.
  - split; [intros [= <-]; split; [done|]; by right; left | by intros [-> _]].
Qed.

(** [is_valid_day] in terms of the digits of the stripped string. *)
Lemma is_valid_day_decimal day :
  is_valid_day day = Done true ↔
  list_ascii_of_string (strip day) ≠ [] ∧
  forallb isdecimal_char (list_ascii_of_string (strip day)) = true ∧
  within_int_limit (strip day) ∧
  (1 ≤ decimal_value (list_ascii_of_string (strip day)) ≤ 7)%Z.
Proof.
  unfold is_valid_day. split.
  - destruct (isdigit (strip day)); [|done].
    intros (n & (Hne & Hdec & Hlim & ->)%int_of_str_Done & [= Hn])%outcome_bind_Done.
    by apply bool_decide_eq_true in Hn.
  - intros (Hne & Hdec & Hlim & Hv).
    assert (isdigit (strip day) = true) as ->.
    { unfold isdigit. destruct (list_ascii_of_string (strip day)); [done|].
      by apply forallb_isdecimal_isdigit. }
    apply outcome_bind_Done. exists (decimal_value (list_ascii_of_string (strip day))).
    split; [by apply int_of_str_Done|]. f_equal. by apply bool_decide_eq_true.
Qed.

(** X1.  [is_valid_day] answers [True] exactly on the strings that,
    stripped, are one of the digits 1 to 7 after any number of zeros and
    are not too long for [int()]: ["3"] and [" 3 "], but also ["03"] and
    ["007"]. *)
Theorem is_valid_day_accepts (day : string) :
  is_valid_day day = Done true ↔
  weekday_literal (strip day) ∧ within_int_limit (strip day).
Proof.
  rewrite is_valid_day_decimal, weekday_literal_value. split.
  - intros (Hne & Hdec & Hlim & Hv). done.
  - intros [(Hne & Hdec & Hv) Hlim]. done.
Qed.

Lemma forallb_digit_not_decimal l :
  forallb isdigit_char l = true → forallb isdecimal_char l = false →
  ∃ c, c ∈ l ∧ superscript_digit c.
Proof.
  induction l as [|c l IH]; [done|]. simpl.
  intros [Hc Hl]%andb_prop Hdec.
  destruct (isdecimal_char c) eqn:Hcd; simpl in Hdec.
  - destruct (IH Hl Hdec) as (c' & Hin & Hsup). exists c'. split; [by right|done].
  - exists c. split; [by left|]. unfold isdigit_char in Hc. rewrite Hcd in Hc.
    simpl in Hc. by apply bool_decide_eq_true in Hc.
Qed.

Lemma superscript_not_decimal c : superscript_digit c → isdecimal_char c = false.
Proof.
  unfold superscript_digit. intros Hc. apply bool_decide_eq_false. intros Hr.
  apply list_elem_of_In in Hc. simpl in Hc. lia.
Qed.

(** X2.  [is_valid_day] is not total: it raises [ValueError], and nothing
    else, exactly when the stripped string passes [isdigit()] and either
    holds a superscript digit, which [int()] does not read, or is too
    long for [int()]. *)
Theorem is_valid_day_raises (day : string) (e : error) :
  is_valid_day day = Fail e ↔
  e = ValueError ∧ isdigit (strip day) = true ∧
  ((∃ c, c ∈ list_ascii_of_string (strip day) ∧ superscript_digit c) ∨
   ¬ within_int_limit (strip day)).
Proof.
  unfold is_valid_day. split.
  - destruct (isdigit (strip day)) eqn:Hdig; [|done]. unfold isdigit in Hdig.
    intros [H|(n & _ & [=])]%outcome_bind_Fail.
    apply int_of_str_Fail in H as [-> Hwhy]. split_and!; [done..|].
    destruct Hwhy as [Hempty|[Hdec|Hlim]].
    + by rewrite Hempty in Hdig.
    + left. destruct (list_ascii_of_string (strip day)) as [|c l]; [done|].
      by apply forallb_digit_not_decimal.
    + by right.
  - intros (-> & Hdig & Hwhy). rewrite Hdig.
    apply outcome_bind_Fail. left. apply int_of_str_Fail. split; [done|].
    destruct Hwhy as [(c & Hin & Hsup)|Hlim]; [|by right; right].
    right. left. apply not_true_is_false. intros Hall.
    rewrite forallb_forall in Hall. apply list_elem_of_In in Hin.
    specialize (Hall c Hin). by rewrite superscript_not_decimal in Hall.
Qed.

(** The assertions of [test_is_valid_day]. *)
Example test_is_valid_day :
  is_valid_day "1" = Done true ∧ is_valid_day "2" = Done true ∧
  is_valid_day "3" = Done true ∧ is_valid_day "4" = Done true ∧
  is_valid_day "5" = Done true ∧ is_valid_day "6" = Done true ∧
  is_valid_day "7" = Done true ∧ is_valid_day "10" = Done false ∧
  is_valid_day "test" = Done false ∧ is_valid_day "0" = Done false ∧
  is_valid_day "" = Done false ∧ is_valid_day " " = Done false ∧
  is_valid_day "..." = Done false.
Proof. repeat split; vm_compute; reflexivity. Qed.

(** A weekday after 4300 zeros is too long for [int()]; after 4299 it
    is not. *)
Example is_valid_day_too_long :
  is_valid_day (string_of_list_ascii (replicate 4300 "0"%char ++ ["7"%char]))
  = Fail ValueError ∧
  is_valid_day (string_of_list_ascii (replicate 4299 "0"%char ++ ["7"%char]))
  = Done true.
Proof. split; vm_compute; reflexivity. Qed.

(** ** [strip] *)

Lemma lstrip_chars_suffix l : ∃ k, l = k ++ lstrip_chars l.
Proof.
  induction l as [|c l [k IH]]; [by exists []|]. simpl.
  destruct (isspace_char c); [|by exists []].
  exists (c :: k). simpl. by rewrite <- IH.
Qed.

Lemma lstrip_chars_head l c r :
  lstrip_chars l = c :: r → isspace_char c = false.
Proof.
  induction l as [|c' l IH]; [done|]. simpl.
  destruct (isspace_char c') eqn:Hc'; [done|]. by intros [= <- _].
Qed.

Lemma lstrip_chars_fixed l :
  (∀ c r, l = c :: r → isspace_char c = false) → lstrip_chars l = l.
Proof.
  destruct l as [|c l]; [done|]. intros H. simpl. by rewrite (H c l).
Qed.

Lemma strip_chars_idempotent l :
  let strip_chars l := reverse (lstrip_chars (reverse (lstrip_chars l))) in
  strip_chars (strip_chars l) = strip_chars l.
Proof.
  simpl. set (a := lstrip_chars l). set (b := lstrip_chars (reverse a)).
  assert (lstrip_chars (reverse b) = reverse b) as ->.
  { apply lstrip_chars_fixed. intros c r Hc.
    destruct (lstrip_chars_suffix (reverse a)) as [k Hk]. fold b in Hk.
    apply (f_equal reverse) in Hk. rewrite reverse_involutive, reverse_app, Hc in Hk.
    by apply (lstrip_chars_head l c (r ++ reverse k)). }
  rewrite reverse_involutive.
  assert (lstrip_chars b = b) as ->; [|done].
  apply lstrip_chars_fixed. intros c r Hc. by apply (lstrip_chars_head (reverse a) c r).
Qed.

Lemma strip_idempotent s : strip (strip s) = strip s.
Proof.
  unfold strip. rewrite String.list_ascii_of_string_of_list_ascii.
  f_equal. apply strip_chars_idempotent.
Qed.

(** ** [get_unavailable_days] *)

Lemma all_valid_days_true days :
  all_valid_days days = Done true ↔
  Forall (λ day, is_valid_day day = Done true) days.
Proof.
  induction days as [|day days IH]; simpl.
  - split; [by constructor|done].
  - rewrite outcome_bind_Done, Forall_cons. split.
    + intros ([] & Hday & H); [|done]. split; [done|by apply IH].
    + intros [Hday H]. exists true. split; [done|by apply IH].
Qed.

Lemma all_valid_days_literals days :
  all_valid_days days = Done true ↔
  Forall (λ field, weekday_literal (strip field) ∧ within_int_limit (strip field))
         days.
Proof.
  rewrite all_valid_days_true. apply Forall_iff. intros field.
  rewrite is_valid_day_decimal, weekday_literal_value. split.
  - intros (Hne & Hdec & Hlim & Hv). done.
  - intros [(Hne & Hdec & Hv) Hlim]. done.
Qed.

(** The line on which [get_unavailable_days] returns, and the lines it
    skips. *)
Lemma get_unavailable_days_Done worker_name stdin days rest :
  get_unavailable_days worker_name stdin = Done (days, rest) ↔
  ∃ skipped line,
    stdin = skipped ++ line :: rest ∧
    Forall (λ l, strip l ≠ "" ∧
                 all_valid_days (split_comma (strip l)) = Done false) skipped ∧
    ((strip line = "" ∧ days = []) ∨
     (strip line ≠ "" ∧ days = strip <$> split_comma (strip line) ∧
      all_valid_days (split_comma (strip line)) = Done true)).
Proof.
  revert days rest. induction stdin as [|l stdin IH]; intros days rest; simpl.
  { split; [done|]. intros (skipped & line & H & _). by destruct skipped. }
  destruct (decide (strip l = "")) as [Hblank|Hfilled].
  - split.
    + intros [= <- <-]. exists [], l. split_and!; [done|constructor|by left].
    + intros (skipped & line & Heq & Hsk & Hline).
      destruct skipped as [|l' skipped]; simpl in Heq;
        [injection Heq as <- <-|injection Heq as <- ->].
      * by destruct Hline as [[_ ->]|[? _]].
      * by apply Forall_cons in Hsk as [[? _] _].
  - destruct (all_valid_days (split_comma (strip l))) as [[]|e] eqn:Hvalid; simpl.
    + split.
      * intros [= <- <-]. exists [], l. split_and!; [done|constructor|].
        right. by split_and!.
      * intros (skipped & line & Heq & Hsk & Hline).
        destruct skipped as [|l' skipped]; simpl in Heq;
        [injection Heq as <- <-|injection Heq as <- ->].
        -- by destruct Hline as [[? _]|(_ & -> & _)].
        -- apply Forall_cons in Hsk as [[_ Hl'] _]. congruence.
    + rewrite IH. split.
      * intros (skipped & line & -> & Hsk & Hline).
        exists (l :: skipped), line. split_and!; [done| |done].
        by constructor.
      * intros (skipped & line & Heq & Hsk & Hline).
        destruct skipped as [|l' skipped]; simpl in Heq;
        [injection Heq as <- <-|injection Heq as <- ->].
        -- destruct Hline as [[? _]|(_ & _ & Htrue)]; [done|congruence].
        -- apply Forall_cons in Hsk as [_ Hsk]. by exists skipped, line.
    + split; [done|].
      intros (skipped & line & Heq & Hsk & Hline).
      destruct skipped as [|l' skipped]; simpl in Heq;
        [injection Heq as <- <-|injection Heq as <- ->].
      * destruct Hline as [[? _]|(_ & _ & Htrue)]; [done|congruence].
      * apply Forall_cons in Hsk as [[_ Hl'] _]. congruence.
Qed.

(** X3.  [get_unavailable_days] returns on the first line that is blank
    or holds valid days only, having skipped the lines before it, each
    of them with a day that is not valid.  A blank line gives no day;
    otherwise it gives the stripped fields of the line, every one a
    digit 1 to 7 after any number of zeros and not too long for
    [int()]. *)
Theorem get_unavailable_days_returns (worker_name : string) (stdin : list string)
    (days : list string) (rest : list string) :
  get_unavailable_days worker_name stdin = Done (days, rest) ↔
  ∃ skipped line,
    stdin = skipped ++ line :: rest ∧
    Forall (λ l, strip l ≠ "" ∧
                 all_valid_days (split_comma (strip l)) = Done false) skipped ∧
    ((strip line = "" ∧ days = []) ∨
     (strip line ≠ "" ∧ days = strip <$> split_comma (strip line) ∧
      Forall (λ field, weekday_literal (strip field) ∧
                       within_int_limit (strip field))
             (split_comma (strip line)))).
Proof.
  rewrite get_unavailable_days_Done. split.
  - intros (skipped & line & Heq & Hsk & [Hblank|(Hne & Hdays & Hvalid)]);
      exists skipped, line; (split_and!; [done..|]); [by left|].
    right. split_and!; [done..|]. by apply all_valid_days_literals.
  - intros (skipped & line & Heq & Hsk & [Hblank|(Hne & Hdays & Hlit)]);
      exists skipped, line; (split_and!; [done..|]); [by left|].
    right. split_and!; [done..|]. by apply all_valid_days_literals.
Qed.

Lemma get_unavailable_days_shorter worker_name stdin days rest :
  get_unavailable_days worker_name stdin = Done (days, rest) →
  length rest < length stdin.
Proof.
  intros (skipped & line & -> & _)%get_unavailable_days_Done.
  rewrite length_app. simpl. lia.
Qed.

Lemma get_unavailable_days_literals worker_name stdin days rest :
  get_unavailable_days worker_name stdin = Done (days, rest) →
  Forall weekday_literal days.
Proof.
  intros (skipped & line & _ & _ & [[_ ->]|(_ & -> & Hvalid)])%get_unavailable_days_Done.
  - constructor.
  - apply Forall_fmap. apply all_valid_days_literals in Hvalid.
    eapply Forall_impl; [exact Hvalid|]. by intros field [Hlit _].
Qed.

(** ** [get_worker_information] *)

(** The number of rounds given to the loop does not matter once it
    exceeds the number of lines. *)
Lemma worker_information_loop_rounds r r' workers stdin :
  length stdin < r → length stdin < r' →
  worker_information_loop r workers stdin = worker_information_loop r' workers stdin.
Proof.
  revert r' workers stdin.
  induction r as [|r IH]; intros [|r'] workers stdin Hr Hr'; [lia..|].
  simpl. destruct stdin as [|line stdin]; [done|]. simpl.
  destruct (decide (strip line = "")); [done|].
  destruct (get_unavailable_days (strip line) stdin) as [[days stdin2]|e] eqn:Hdays;
    [|done].
  simpl. apply get_unavailable_days_shorter in Hdays. simpl in Hr, Hr'.
  apply IH; lia.
Qed.

Lemma worker_information_loop_collected r workers stdin workers' rest :
  worker_information_loop r workers stdin = Done (workers', rest) →
  Forall collected_worker workers →
  Forall collected_worker workers' ∧ length rest < length stdin.
Proof.
  revert workers stdin. induction r as [|r IH]; intros workers stdin; [done|].
  simpl. destruct stdin as [|line stdin]; [done|]. simpl.
  destruct (decide (strip line = "")) as [Hblank|Hname].
  { intros [= <- <-] Hws. split; [done|lia]. }
  destruct (get_unavailable_days (strip line) stdin) as [[days stdin2]|e] eqn:Hdays;
    [|done].
  simpl. intros Hloop Hws.
  apply IH in Hloop as [Hws' Hlen].
  - split; [done|]. apply get_unavailable_days_shorter in Hdays. lia.
  - apply Forall_app. split; [done|]. apply Forall_singleton.
    split_and!; [done|apply strip_idempotent|].
    by eapply get_unavailable_days_literals.
Qed.

(** X4.  Every worker that [get_worker_information] returns has a name
    that is not empty and carries no blank at either end, and
    unavailable days that are digits 1 to 7 after any number of zeros;
    the lines left unread are fewer than the lines given. *)
Theorem get_worker_information_collected (stdin : list string)
    (workers : list Employee) (rest : list string) :
  get_worker_information stdin = Done (workers, rest) →
  Forall collected_worker workers ∧ length rest < length stdin.
Proof.
  intros H. by apply worker_information_loop_collected in H.
Qed.

Lemma get_worker_information_collected_witness :
  ∃ workers rest,
    get_worker_information ["Bob"; "1"; " Bob "; ""; ""] = Done (workers, rest) ∧
    Forall collected_worker workers ∧
    length rest < length ["Bob"; "1"; " Bob "; ""; ""].
Proof.
  eexists _, _. split; [reflexivity|].
  apply (get_worker_information_collected ["Bob"; "1"; " Bob "; ""; ""]).
  reflexivity.
Defined.

(** The same name can be collected twice: the workers of the
    counterexample to unavailability by name come from five lines. *)
Example get_worker_information_same_name :
  get_worker_information ["Bob"; "1"; " Bob "; ""; ""]
  = Done (same_name_employees, []).
Proof. vm_compute. reflexivity. Qed.

(** ** [total_workers] and [minimum_workers_check] *)

(** X5.  [total_workers] returns the number on the first line that
    parses to a positive number, having skipped every line before it;
    what it returns is positive. *)
Theorem total_workers_returns (int : string → option Z) (stdin : list string)
    (n : Z) (rest : list string) :
  total_workers int stdin = Done (n, rest) ↔
  ∃ skipped line,
    stdin = skipped ++ line :: rest ∧ int line = Some n ∧ (n > 0)%Z ∧
    Forall (λ l, ∀ m, int l = Some m → (m ≤ 0)%Z) skipped.
Proof.
  revert n rest. induction stdin as [|l stdin IH]; intros n rest; simpl.
  { split; [done|]. intros (skipped & line & H & _). by destruct skipped. }
  destruct (int l) as [m|] eqn:Hl.
  - destruct (bool_decide (m > 0)%Z) eqn:Hm.
    + apply bool_decide_eq_true in Hm. split.
      * intros [= <- <-]. exists [], l. split_and!; [done..|constructor].
      * intros (skipped & line & Heq & Hline & Hn & Hsk).
        destruct skipped as [|l' skipped]; simpl in Heq;
          [injection Heq as <- <-|injection Heq as <- ->].
        -- congruence.
        -- apply Forall_cons in Hsk as [Hl' _]. specialize (Hl' m Hl). lia.
    + apply bool_decide_eq_false in Hm. rewrite IH. split.
      * intros (skipped & line & -> & Hline & Hn & Hsk).
        exists (l :: skipped), line. split_and!; [done..|].
        constructor; [|done]. intros m' Hm'. assert (m' = m) by congruence. lia.
      * intros (skipped & line & Heq & Hline & Hn & Hsk).
        destruct skipped as [|l' skipped]; simpl in Heq;
          [injection Heq as <- <-|injection Heq as <- ->].
        -- assert (n = m) by congruence. lia.
        -- apply Forall_cons in Hsk as [_ Hsk]. by exists skipped, line.
  - rewrite IH. split.
    + intros (skipped & line & -> & Hline & Hn & Hsk).
      exists (l :: skipped), line. split_and!; [done..|].
      constructor; [|done]. intros m' Hm'. congruence.
    + intros (skipped & line & Heq & Hline & Hn & Hsk).
      destruct skipped as [|l' skipped]; simpl in Heq;
        [injection Heq as <- <-|injection Heq as <- ->].
      * congruence.
      * apply Forall_cons in Hsk as [_ Hsk]. by exists skipped, line.
Qed.

Lemma total_workers_positive int stdin n rest :
  total_workers int stdin = Done (n, rest) → (n > 0)%Z.
Proof.
  induction stdin as [|l stdin IH]; simpl; [done|].
  destruct (int l) as [m|]; [|done].
  destruct (bool_decide (m > 0)%Z) eqn:Hm; [|done].
  apply bool_decide_eq_true in Hm. by intros [= <- _].
Qed.

(** X6.  When [total_workers] has returned a minimum and
    [minimum_workers_check] returns for the collected workers, it
    returns [True] and there is at least one worker: the fall-back
    assigner is not reached with an empty list. *)
Theorem minimum_workers_check_nonempty (int : string → option Z)
    (stdin rest : list string) (min_workers : Z) (employees : list Employee)
    (enough : bool) :
  total_workers int stdin = Done (min_workers, rest) →
  minimum_workers_check (Z.of_nat (length employees)) min_workers = Done enough →
  enough = true ∧ employees ≠ [].
Proof.
  intros Hpos%total_workers_positive.
  unfold minimum_workers_check.
  destruct (bool_decide _) eqn:Hlt; [done|]. apply bool_decide_eq_false in Hlt.
  intros [= <-]. split; [done|]. intros ->. simpl in Hlt. lia.
Qed.

Lemma minimum_workers_check_nonempty_witness :
  total_workers (λ line, match int_of_str line with Done n => Some n | Fail _ => None end)
    ["0"; "2"] = Done (2%Z, []) ∧
  minimum_workers_check (Z.of_nat (length same_name_employees)) 2 = Done true ∧
  true = true ∧ same_name_employees ≠ [].
Proof.
  split; [reflexivity|]. split; [reflexivity|].
  apply (minimum_workers_check_nonempty
           (λ line, match int_of_str line with Done n => Some n | Fail _ => None end)
           ["0"; "2"] [] 2%Z same_name_employees true); reflexivity.
Defined.

(** The assertions of [test_minimum_workers_check]. *)
Example test_minimum_workers_check :
  minimum_workers_check 10 5 = Done true ∧ minimum_workers_check 8 5 = Done true ∧
  minimum_workers_check 2 1 = Done true ∧ minimum_workers_check 4 2 = Done true ∧
  minimum_workers_check 5 10 = Fail (Uncaught (SystemExit 1)) ∧
  minimum_workers_check 7 11 = Fail (Uncaught (SystemExit 1)) ∧
  minimum_workers_check 1 2 = Fail (Uncaught (SystemExit 1)).
Proof. repeat split. Qed.

(** ** [shifts_table] *)

Lemma int_of_str_char c n :
  int_of_str (String c "") = Done n ↔
  48 ≤ nat_of_ascii c ≤ 57 ∧ n = (Z.of_nat (nat_of_ascii c) - 48)%Z.
Proof.
  rewrite int_of_str_Done. unfold within_int_limit. simpl.
  rewrite andb_true_r, isdecimal_char_range.
  unfold decimal_value. simpl. split.
  - intros (_ & Hc & _ & ->). split; [done|lia].
  - intros (Hc & ->). split; [discriminate|]. split; [done|]. split; [|lia].
    apply Nat.leb_le. reflexivity.
Qed.

Lemma mark_day_Done row c row' :
  mark_day row (String c "") = Done row' ↔
  48 ≤ nat_of_ascii c ≤ 57 ∧ 2 + (nat_of_ascii c - 48) < length row ∧
  row' = <[2 + (nat_of_ascii c - 48) := "+"]> row.
Proof.
  unfold mark_day. rewrite outcome_bind_Done.
  setoid_rewrite int_of_str_char. unfold setitem. split.
  - intros (n & (Hc & ->) & H).
    replace (Z.to_nat (3 + (Z.of_nat (nat_of_ascii c) - 48) - 1))
      with (2 + (nat_of_ascii c - 48)) in H by lia.
    destruct (bool_decide _) eqn:Hlen; [|done]. apply bool_decide_eq_true in Hlen.
    by injection H as <-.
  - intros (Hc & Hlen & ->). exists (Z.of_nat (nat_of_ascii c) - 48)%Z.
    split; [done|].
    replace (Z.to_nat (3 + (Z.of_nat (nat_of_ascii c) - 48) - 1))
      with (2 + (nat_of_ascii c - 48)) by lia.
    by rewrite bool_decide_eq_true_2.
Qed.

Lemma mark_days_Done cs row row' :
  length row = 10 →
  mark_days ((λ c, String c "") <$> cs) row = Done row' ↔
  Forall (λ c, 48 ≤ nat_of_ascii c ≤ 55) cs ∧
  row' = foldl (λ r c, <[2 + (nat_of_ascii c - 48) := "+"]> r) row cs.
Proof.
  revert row. induction cs as [|c cs IH]; intros row Hlen; simpl.
  { split; [intros [= <-]; by split|by intros [_ ->]]. }
  rewrite outcome_bind_Done. setoid_rewrite mark_day_Done. rewrite Hlen, Forall_cons.
  split.
  - intros (row1 & (Hc & Hi & ->) & H).
    apply IH in H as [Hcs ->]; [|by rewrite length_insert].
    split; [split; [lia|done]|done].
  - intros [[Hc Hcs] ->]. eexists. split; [split; [lia|split; [lia|done]]|].
    apply IH; [by rewrite length_insert|done].
Qed.

Lemma marks_lookup cs (row : list string) j :
  j < length row →
  foldl (λ r c, <[2 + (nat_of_ascii c - 48) := "+"]> r) row cs !! j
  = if decide (Exists (λ c, 2 + (nat_of_ascii c - 48) = j) cs)
    then Some "+" else row !! j.
Proof.
  revert row. induction cs as [|c cs IH]; intros row Hj; cbn [foldl].
  { rewrite decide_False; [done|]. by intros ?%Exists_nil. }
  rewrite IH by by rewrite length_insert.
  destruct (decide (Exists _ cs)) as [Hcs|Hcs].
  - rewrite decide_True; [done|]. by right.
  - destruct (decide (2 + (nat_of_ascii c - 48) = j)) as [Hc|Hc].
    + rewrite decide_True by by left. subst j. by apply list_lookup_insert_eq.
    + rewrite decide_False.
      * by apply list_lookup_insert_ne.
      * by intros [?|?]%Exists_cons.
Qed.

Lemma marks_length cs (row : list string) :
  length (foldl (λ r c, <[2 + (nat_of_ascii c - 48) := "+"]> r) row cs) = length row.
Proof.
  revert row. induction cs as [|c cs IH]; intros row; simpl; [done|].
  by rewrite IH, length_insert.
Qed.

Lemma digit_marked cs k :
  k ≤ 7 →
  Forall (λ c, 48 ≤ nat_of_ascii c ≤ 55) cs →
  Exists (λ c, 2 + (nat_of_ascii c - 48) = 2 + k) cs ↔ digit_char k ∈ cs.
Proof.
  intros Hk Hcs. rewrite Exists_exists. rewrite Forall_forall in Hcs. split.
  - intros (c & Hin & Hc). specialize (Hcs c Hin).
    assert (c = digit_char k) as <-; [|done].
    unfold digit_char. rewrite <- (Ascii.ascii_nat_embedding c). f_equal. lia.
  - intros Hin. exists (digit_char k). split; [done|].
    unfold digit_char. rewrite Ascii.nat_ascii_embedding; lia.
Qed.

Lemma shifts_table_rows_Done shifts rows :
  shifts_table_rows shifts = Done rows ↔
  Forall2 (λ r row, shifts_table_row r = Done row) shifts rows.
Proof.
  revert rows. induction shifts as [|r shifts IH]; intros rows; simpl.
  - split; [intros [= <-]; constructor|by intros ->%Forall2_nil_inv_l].
  - rewrite outcome_bind_Done. setoid_rewrite outcome_bind_Done. split.
    + intros (row & Hrow & rows' & Hrows & [= <-]). constructor; [done|by apply IH].
    + intros (row & rows' & Hrow & Hrows & ->)%Forall2_cons_inv_l.
      exists row. split; [done|]. exists rows'. split; [by apply IH|done].
Qed.

Lemma shifts_table_row_Done r row :
  shifts_table_row r = Done row ↔
  digits_up_to_seven r ∧
  row = foldl (λ r c, <[2 + (nat_of_ascii c - 48) := "+"]> r)
          ([row_shift r; row_start r; row_end r] ++ replicate 7 "")
          (list_ascii_of_string (strip (row_days r))).
Proof. unfold shifts_table_row, characters. by apply mark_days_Done. Qed.

(** X7.  [shifts_table] returns exactly for a list of shifts that is not
    empty and whose day fields hold digits 0 to 7 only: the digit 0 is
    taken, the digits 8 and 9 and any other character are not.  On the
    empty list it raises [UnboundLocalError], [colalign] being assigned
    in the loop only. *)
Theorem shifts_table_returns (shifts : list ShiftRow) :
  ((∃ rows, shifts_table shifts = Done rows) ↔
   shifts ≠ [] ∧ Forall digits_up_to_seven shifts) ∧
  (shifts_table shifts = Fail (UnboundLocalError "colalign") ↔ shifts = []).
Proof.
  unfold shifts_table. split.
  - split.
    + intros (rows & (rows' & Hrows & H)%outcome_bind_Done).
      destruct shifts as [|r shifts]; [done|]. split; [done|].
      apply shifts_table_rows_Done in Hrows.
      eapply Forall2_Forall_l; [exact Hrows|].
      apply Forall_true. intros row' r' Hr'.
      apply shifts_table_row_Done in Hr'. apply Hr'.
    + intros [Hne Hdays].
      assert (∃ rows, shifts_table_rows shifts = Done rows) as [rows Hrows].
      { clear Hne. induction Hdays as [|r shifts Hr _ [rows IH]]; [by exists []|].
        eexists. apply shifts_table_rows_Done. constructor.
        - apply shifts_table_row_Done. split; [done|reflexivity].
        - by apply shifts_table_rows_Done. }
      exists rows. rewrite Hrows. by destruct shifts.
  - split.
    + intros [H|(rows & Hrows & H)]%outcome_bind_Fail.
      * destruct shifts as [|r shifts]; [done|]. exfalso.
        clear -H. revert H. generalize (r :: shifts). intros l.
        induction l as [|r' l IH]; simpl; [done|].
        intros [H|(row & _ & [H|(rows & _ & [=])]%outcome_bind_Fail)]%outcome_bind_Fail;
          [|by apply IH].
        unfold shifts_table_row in H. revert H. generalize (characters (strip (row_days r'))).
        generalize ([row_shift r'; row_start r'; row_end r'] ++
                    replicate (length all_days_items) "").
        intros row cs. revert row. induction cs as [|c cs IHc]; intros row; simpl; [done|].
        intros [H|(row' & _ & H)]%outcome_bind_Fail; [|by eapply IHc].
        unfold mark_day in H.
        apply outcome_bind_Fail in H as [H|(n & _ & H)].
        -- by apply int_of_str_Fail in H as [[=] _].
        -- unfold setitem in H. by destruct (bool_decide _).
      * by destruct shifts.
    + by intros ->.
Qed.

(** X8.  A row that [shifts_table] returns has ten columns: the shift,
    its start, its end, and one column per weekday holding ["+"] when the
    digit of that day occurs in the days field and [""] otherwise.  The
    digit 0 marks the column of the end time instead. *)
Theorem shifts_table_marks (shifts : list ShiftRow) (rows : list (list string))
    (i : nat) (r : ShiftRow) :
  shifts_table shifts = Done rows → shifts !! i = Some r →
  ∃ row,
    rows !! i = Some row ∧ length row = 10 ∧
    row !! 0 = Some (row_shift r) ∧ row !! 1 = Some (row_start r) ∧
    row !! 2 = Some (if decide (digit_char 0 ∈ list_ascii_of_string (strip (row_days r)))
                     then "+" else row_end r) ∧
    ∀ k, 1 ≤ k ≤ 7 →
      row !! (2 + k)
      = Some (if decide (digit_char k ∈ list_ascii_of_string (strip (row_days r)))
              then "+" else "").
Proof.
  unfold shifts_table. intros (rows' & Hrows & H)%outcome_bind_Done Hr.
  assert (rows' = rows) as -> by by destruct shifts; simplify_eq.
  apply shifts_table_rows_Done in Hrows.
  destruct (Forall2_lookup_l _ _ _ _ _ Hrows Hr) as (row & Hrow & [Hdays ->]%shifts_table_row_Done).
  exists (foldl (λ r0 c, <[2 + (nat_of_ascii c - 48) := "+"]> r0)
            ([row_shift r; row_start r; row_end r] ++ replicate 7 "")
            (list_ascii_of_string (strip (row_days r)))).
  split; [done|]. rewrite marks_length. split; [done|].
  split_and!.
  - rewrite marks_lookup by (simpl; lia). rewrite decide_False; [done|].
    intros (c & _ & Hc)%Exists_exists. lia.
  - rewrite marks_lookup by (simpl; lia). rewrite decide_False; [done|].
    intros (c & _ & Hc)%Exists_exists. lia.
  - rewrite marks_lookup by (simpl; lia).
    assert (Exists (λ c, 2 + (nat_of_ascii c - 48) = 2)
              (list_ascii_of_string (strip (row_days r)))
            ↔ digit_char 0 ∈ list_ascii_of_string (strip (row_days r))) as Hiff.
    { apply (digit_marked _ 0); [lia|done]. }
    destruct (decide (Exists _ _)) as [He|He]; rewrite Hiff in He.
    + by rewrite decide_True.
    + by rewrite decide_False.
  - intros k Hk. rewrite marks_lookup by (simpl; lia).
    destruct (decide (Exists _ _)) as [He|He];
      rewrite digit_marked in He by (done || lia).
    + by rewrite decide_True.
    + rewrite decide_False by done.
      do 8 (destruct k as [|k]; [try lia; try done|]). lia.
Qed.

Lemma shifts_table_marks_witness :
  let r := {| row_shift := "Open"; row_start := "08:00"; row_end := "16:00";
              row_days := "12" |} in
  ∃ rows,
    shifts_table [r] = Done rows ∧ [r] !! 0 = Some r ∧
    ∃ row,
      rows !! 0 = Some row ∧ length row = 10 ∧
      row !! 0 = Some (row_shift r) ∧ row !! 1 = Some (row_start r) ∧
      row !! 2 = Some (if decide (digit_char 0 ∈ list_ascii_of_string (strip (row_days r)))
                       then "+" else row_end r) ∧
      ∀ k, 1 ≤ k ≤ 7 →
        row !! (2 + k)
        = Some (if decide (digit_char k ∈ list_ascii_of_string (strip (row_days r)))
                then "+" else "").
Proof.
  intros r. eexists. split; [reflexivity|]. split; [reflexivity|].
  apply (shifts_table_marks [r] _ 0 r); reflexivity.
Defined.

(** ** [show_requested_free_days] *)

Lemma free_days_of_Ok ds :
  (∃ names, free_days_of ds = Ok names) ↔ Forall (λ d, is_Some (all_days !! d)) ds.
Proof.
  induction ds as [|d ds IH]; simpl.
  - split; [constructor|by exists []].
  - rewrite Forall_cons, <- IH. split.
    + intros (names & (dn & Hd%getitem_Ok & (ns & Hns & _)%bind_Ok)%bind_Ok).
      split; [by exists dn|by exists ns].
    + intros [[dn Hd] [ns Hns]]. exists (dn :: ns).
      apply bind_Ok. exists dn. split; [by apply getitem_Ok|]. by rewrite Hns.
Qed.

Lemma free_days_of_Raise ds e :
  free_days_of ds = Raise e → ∃ d, d ∈ ds ∧ all_days !! d = None ∧ e = KeyError d.
Proof.
  induction ds as [|d ds IH]; simpl; [done|].
  intros [[-> Hd]%getitem_Raise|(dn & _ & [H|(ns & _ & [=])]%bind_Raise)]%bind_Raise.
  - exists d. split; [by left|done].
  - destruct (IH H) as (d' & Hin & Hd'). exists d'. split; [by right|done].
Qed.

(** X9.  [show_requested_free_days] prints a line for every worker
    exactly when every unavailable day of every worker is a key of
    [all_days]; otherwise it raises [KeyError] for a day that is not. *)
Theorem show_requested_free_days_outcome (workers : list Employee) :
  ((∃ lines, show_requested_free_days workers = Ok lines ∧
             length lines = length workers) ↔ days_are_keys workers) ∧
  ∀ e, show_requested_free_days workers = Raise e →
       ∃ w d, w ∈ workers ∧ d ∈ unavailable_days w ∧ all_days !! d = None ∧
              e = KeyError d.
Proof.
  unfold show_requested_free_days, days_are_keys. split.
  - induction workers as [|w workers IH]; simpl.
    { split; [constructor|by exists []]. }
    rewrite Forall_cons, <- IH, <- free_days_of_Ok. unfold requested_free_days_line.
    split.
    + intros (lines & (line & (ns & Hns & _)%bind_Ok & (ls & Hls & [= <-])%bind_Ok)%bind_Ok
                & Hlen).
      split; [by exists ns|]. exists ls. split; [done|]. simpl in Hlen. lia.
    + intros [[ns Hns] (ls & Hls & Hlen)]. eexists. rewrite Hns, Hls. simpl.
      split; [done|]. simpl. by rewrite Hlen.
  - intros e. induction workers as [|w workers IH]; simpl; [done|].
    intros [H|(line & _ & [H|(ls & _ & [=])]%bind_Raise)]%bind_Raise.
    + unfold requested_free_days_line in H.
      apply bind_Raise in H as [H|(ns & _ & [=])].
      apply free_days_of_Raise in H as (d & Hin & Hd & ->).
      exists w, d. split; [by left|done].
    + destruct (IH H) as (w' & d & Hin & Hd). exists w', d. split; [by right|done].
Qed.

(** The keys of [all_days] are single characters. *)
Lemma all_days_key_length d :
  is_Some (all_days !! d) → length (list_ascii_of_string d) = 1.
Proof.
  intros [dn H]. apply all_days_cases, list_elem_of_In in H. simpl in H.
  repeat (destruct H as [[= <- <-]|H]; [done|]). destruct H.
Qed.

Lemma split_chars_no_sep sep l : sep ∉ l → split_chars sep l = [l].
Proof.
  induction l as [|c l IH]; [done|]. intros [Hc Hl]%not_elem_of_cons. simpl.
  rewrite decide_False by done. by rewrite IH.
Qed.

(** X10.  A day typed with leading zeros, and not too long for [int()],
    is accepted by [get_unavailable_days] but is not a key of
    [all_days]: [show_requested_free_days] then raises [KeyError] on the
    worker. *)
Theorem leading_zero_day_accepted_then_KeyError (worker_name line : string)
    (stdin : list string) (k : nat) (d : ascii) :
  list_ascii_of_string (strip line) = replicate (S k) "0"%char ++ [d] →
  49 ≤ nat_of_ascii d ≤ 55 →
  S (S k) ≤ int_max_str_digits →
  get_unavailable_days worker_name (line :: stdin) = Done ([strip line], stdin) ∧
  show_requested_free_days
    [ {| name := worker_name; unavailable_days := [strip line] |} ]
  = Raise (KeyError (strip line)).
Proof.
  intros Hline Hd Hk.
  assert (weekday_literal (strip line)) as Hlit by by exists (S k), d.
  assert (within_int_limit (strip line)) as Hlim.
  { unfold within_int_limit. rewrite Hline, length_app, length_replicate. simpl. lia. }
  assert (split_comma (strip line) = [strip line]) as Hsplit.
  { unfold split_comma. rewrite split_chars_no_sep.
    - simpl. by rewrite String.string_of_list_ascii_of_string.
    - rewrite Hline. intros [Hin|Hin%list_elem_of_singleton]%elem_of_app.
      + by apply elem_of_replicate in Hin as [[=] _].
      + subst d. vm_compute in Hd. lia. }
  split.
  - apply get_unavailable_days_Done. exists [], line.
    split_and!; [done|constructor|]. right. rewrite Hsplit. split_and!.
    + intros Hempty. by rewrite Hempty in Hline.
    + simpl. by rewrite strip_idempotent.
    + apply all_valid_days_literals, Forall_singleton. by rewrite strip_idempotent.
  - unfold show_requested_free_days. simpl. unfold requested_free_days_line. simpl.
    unfold getitem. destruct (all_days !! strip line) as [dn|] eqn:Hkey; [|done].
    assert (length (list_ascii_of_string (strip line)) = 1) as Hlen
      by (apply all_days_key_length; by exists dn).
    rewrite Hline, length_app, length_replicate in Hlen. simpl in Hlen. lia.
Qed.

Lemma leading_zero_day_witness :
  list_ascii_of_string (strip " 01") = replicate 1 "0"%char ++ ["1"%char] ∧
  49 ≤ nat_of_ascii "1"%char ≤ 55 ∧
  2 ≤ int_max_str_digits ∧
  get_unavailable_days "Bob" [" 01"] = Done ([strip " 01"], []) ∧
  show_requested_free_days
    [ {| name := "Bob"; unavailable_days := [strip " 01"] |} ]
  = Raise (KeyError (strip " 01")).
Proof.
  assert (list_ascii_of_string (strip " 01") = replicate 1 "0"%char ++ ["1"%char])
    as Hline by reflexivity.
  assert (49 ≤ nat_of_ascii "1"%char ≤ 55) as Hd by (vm_compute; lia).
  assert (2 ≤ int_max_str_digits) as Hk by (apply Nat.leb_le; reflexivity).
  split_and!; [done|lia|lia|done|..];
    apply (leading_zero_day_accepted_then_KeyError "Bob" " 01" [] 0 "1"%char
             Hline Hd Hk).
Defined.

(** ** More on the two assigners *)

Lemma skip_ineligible_no_KeyError asd dn d e stk ex :
  (∀ x, x ∈ e :: stk → is_Some (commitment asd (name x) dn)) →
  skip_ineligible asd dn d e stk = Raise ex →
  ex = NotEnoughWorkersError not_enough_msg.
Proof.
  revert e. induction stk as [|x stk IH]; intros e Hall; simpl.
  - intros [H|([] & _ & H)]%bind_Raise; [|by injection H|done].
    destruct (Hall e) as [c Hc]; [by left|].
    assert (∃ b, ineligible asd dn d e = Ok b) as [b Hb]
      by (eexists; apply ineligible_Ok; by exists c).
    congruence.
  - intros [H|([] & _ & H)]%bind_Raise; [| |done].
    + destruct (Hall e) as [c Hc]; [by left|].
      assert (∃ b, ineligible asd dn d e = Ok b) as [b Hb]
        by (eexists; apply ineligible_Ok; by exists c).
      congruence.
    + apply IH in H; [done|]. intros y Hy. apply Hall. by right.
Qed.

Lemma assign_slot_no_KeyError ids sid d st ex :
  lookups_succeed ids st → sid ∈ ids → is_Some (all_days !! d) →
  assign_slot sid d st = Raise ex →
  ex = NotEnoughWorkersError not_enough_msg ∨ ex = SystemExit 1.
Proof.
  intros [Hcells Hcommit] Hsid [dn Hdn]. unfold assign_slot, getitem at 1.
  rewrite Hdn. simpl. destruct (stack st) as [|e stk] eqn:Hstk.
  { intros [= <-]. by right. }
  assert (dn ∈ all_days_values) as Hday by by eapply all_days_value.
  intros [H|([e' stk'] & Hskip & H)]%bind_Raise.
  { left. eapply skip_ineligible_no_KeyError; [|done].
    intros x Hx. by apply Hcommit. }
  exfalso. apply skip_ineligible_Ok in Hskip as (skipped & Heq & _ & _).
  assert (e' ∈ e :: stk) as He'.
  { rewrite Heq. apply elem_of_app. right. by left. }
  apply bind_Raise in H as [H|(T' & _ & H)].
  { destruct (append_slot_total (assignments st) sid dn (name e')) as [T' HT'];
      [by apply Hcells|]. congruence. }
  apply bind_Raise in H as [H|(asd' & _ & [=])].
  destruct (commit_total (assigned_shifts_per_day st) (name e') dn sid) as [asd' Hasd'].
  { destruct (Hcommit e' dn He' Hday) as [c Hc]. unfold commitment in Hc.
    by destruct (_ !! name e'). }
  congruence.
Qed.

Lemma assign_slot_lookups_succeed ids sid d st st' :
  lookups_succeed ids st → assign_slot sid d st = Ok st' → lookups_succeed ids st'.
Proof.
  intros [Hcells Hcommit] (dn0 & e & skipped & _ & Heq & _ & _ & HT & Hasd)%assign_slot_Ok.
  split.
  - intros s dn Hs Hdn. apply append_slot_cell in HT as (l & _ & Hupd).
    rewrite Hupd. destruct (decide _); [done|by apply Hcells].
  - intros x dn Hx Hdn. rewrite (commit_commitment _ _ _ _ _ Hasd).
    destruct (decide _); [done|]. apply Hcommit; [|done].
    rewrite Heq. apply elem_of_app. right. by right.
Qed.

Lemma initial_state_lookups_succeed shifts employees g :
  lookups_succeed (shift <$> shifts) (initial_state shifts employees g).
Proof.
  split; unfold initial_state; cbn [assignments assigned_shifts_per_day stack].
  - intros sid dn Hsid Hdn. by rewrite initial_assignments_cell, decide_True.
  - intros e dn He Hdn. rewrite elem_of_reverse in He.
    apply employee_list_elem in He.
    rewrite initial_commitments_commitment, decide_True; [done|].
    split; [by apply list_elem_of_fmap_2|done].
Qed.

Lemma assign_schedule_Raise_valid shifts employees g ex :
  valid_shifts shifts →
  (assign_schedule shifts employees g).1 = Raise ex →
  ex = NotEnoughWorkersError not_enough_msg ∨ ex = SystemExit 1.
Proof.
  intros Hvalid Hrun.
  rewrite assign_schedule_unfold, fmap_Raise in Hrun. unfold run_slots in Hrun.
  apply for_each_Raise in Hrun as (pre & [sid d] & post & st & Hsl & Hpre & Hslot).
  assert ((sid, d) ∈ slots shifts) as Hin.
  { rewrite Hsl. apply elem_of_app. right. by left. }
  apply elem_of_slots_inv in Hin as (s & Hs & -> & Hd).
  assert (lookups_succeed (shift <$> shifts) st) as Hst.
  { eapply (for_each_invariant (lookups_succeed (shift <$> shifts))); [| |exact Hpre].
    - intros [sid' d'] t t' _. apply assign_slot_lookups_succeed.
    - apply initial_state_lookups_succeed. }
  unfold valid_shifts in Hvalid. rewrite Forall_forall in Hvalid.
  specialize (Hvalid s Hs). rewrite Forall_forall in Hvalid.
  simpl in Hslot.
  exact (assign_slot_no_KeyError _ _ _ _ _ Hst (list_elem_of_fmap_2 shift _ _ Hs)
           (Hvalid d Hd) Hslot).
Qed.

(** X11.  On shifts whose day keys are keys of [all_days],
    [assign_schedule] has three outcomes only: a table,
    [NotEnoughWorkersError], or the exit with status 1.  No lookup in
    its dictionaries fails. *)
Theorem assign_schedule_outcomes (shifts : list Shift) (employees : list Employee)
    (g : gen) :
  valid_shifts shifts →
  (∃ T, (assign_schedule shifts employees g).1 = Ok T) ∨
  (assign_schedule shifts employees g).1 = Raise (NotEnoughWorkersError not_enough_msg) ∨
  (assign_schedule shifts employees g).1 = Raise (SystemExit 1).
Proof.
  intros Hvalid.
  destruct (assign_schedule shifts employees g).1 as [T|ex] eqn:Hrun.
  - left. by exists T.
  - right.
    destruct (assign_schedule_Raise_valid shifts employees g ex Hvalid Hrun) as [->| ->].
    + by left.
    + by right.
Qed.

Lemma assign_schedule_outcomes_witness :
  valid_shifts scenario_shifts ∧
  ((∃ T, (assign_schedule scenario_shifts scenario_employees scenario_tape).1 = Ok T) ∨
   (assign_schedule scenario_shifts scenario_employees scenario_tape).1
   = Raise (NotEnoughWorkersError not_enough_msg) ∨
   (assign_schedule scenario_shifts scenario_employees scenario_tape).1
   = Raise (SystemExit 1)).
Proof.
  assert (valid_shifts scenario_shifts) as Hvalid by (repeat constructor; by eexists).
  split; [done|].
  exact (assign_schedule_outcomes scenario_shifts scenario_employees scenario_tape Hvalid).
Defined.

Lemma run_slots_consumes sl st st' :
  run_slots sl st = Ok st' → length (stack st') + length sl ≤ length (stack st).
Proof.
  unfold run_slots. revert st. induction sl as [|[sid d] sl IH]; intros st; simpl.
  - intros [= <-]. lia.
  - intros (st1 & Hslot & Hrest)%bind_Ok. apply IH in Hrest.
    apply assign_slot_Ok in Hslot as (dn & e & skipped & _ & Heq & _).
    rewrite Heq, length_app. simpl. lia.
Qed.

(** X12.  [assign_schedule] fills at most as many slots as its pool has
    candidates: when it returns, the shifts have no more than
    [len(shifts) * 7 * len(employees)] slots in all, since every slot
    takes at least one candidate from the pool. *)
Theorem assign_schedule_slots_bounded (shifts : list Shift)
    (employees : list Employee) (g : gen) (T : Table) :
  (assign_schedule shifts employees g).1 = Ok T →
  length (slots shifts) ≤ length shifts * 7 * length employees.
Proof.
  rewrite assign_schedule_unfold. intros (st' & Hrun & _)%fmap_Ok.
  apply run_slots_consumes in Hrun. unfold initial_state in Hrun.
  cbn [stack] in Hrun. rewrite length_reverse in Hrun.
  assert (length (employee_list shifts employees g).1
          = length shifts * 7 * length employees) as Hpool; [|lia].
  unfold employee_list. change (length all_days_items) with 7.
  destruct (sample_rounds_blocks (length shifts * 7) employees g) as [Hlen Hblocks].
  destruct (sample_rounds _ employees g) as [blocks g']. simpl in *.
  by rewrite (concat_blocks_length employees), Hlen.
Qed.

Lemma assign_schedule_slots_bounded_witness :
  ∃ T,
    (assign_schedule scenario_shifts scenario_employees scenario_tape).1 = Ok T ∧
    length (slots scenario_shifts)
    ≤ length scenario_shifts * 7 * length scenario_employees.
Proof.
  eexists. split; [reflexivity|].
  eapply (assign_schedule_slots_bounded scenario_shifts scenario_employees
            scenario_tape).
  reflexivity.
Defined.

(** X13.  In a table returned by either assigner, the cell of a shift
    identifier and a weekday holds one name for every slot of that
    identifier on that weekday: a repeated identifier or a repeated day
    adds names to the same cell. *)
Theorem returned_cell_sizes (shifts : list Shift) (employees : list Employee)
    (g : gen) (T : Table) (sid dn : string) :
  returns_table shifts employees g T →
  sid ∈ shift <$> shifts → dn ∈ all_days_values →
  ∃ names, cell T sid dn = Some names ∧ length names = hits sid dn (slots shifts).
Proof.
  intros HT Hsid Hdn.
  destruct (returned_cells shifts employees g T sid dn HT) as (names & Hlen & Hcell).
  exists names. by rewrite Hcell, decide_True.
Qed.

Lemma returned_cell_sizes_witness :
  ∃ T,
    returns_table scenario_shifts scenario_employees scenario_tape T ∧
    "Open" ∈ shift <$> scenario_shifts ∧ "Monday" ∈ all_days_values ∧
    ∃ names, cell T "Open" "Monday" = Some names ∧
             length names = hits "Open" "Monday" (slots scenario_shifts).
Proof.
  eexists. split; [left; reflexivity|].
  assert ("Open" ∈ shift <$> scenario_shifts) as Hsid by by left.
  assert ("Monday" ∈ all_days_values) as Hdn by by left.
  split_and!; [done..|].
  apply (returned_cell_sizes scenario_shifts scenario_employees scenario_tape);
    [left; reflexivity|done..].
Defined.

Lemma next_saved it w it' :
  next it = Ok (w, it') → w ∈ cycle_saved it ∧ cycle_saved it' = cycle_saved it.
Proof.
  unfold next. destruct (cycle_saved it !! cycle_pos it) as [x|] eqn:Hx; [|done].
  intros [= <- <-]. split; [by eapply list_elem_of_lookup_2|done].
Qed.

Lemma fallback_names seq sl T st' :
  for_each (λ x, assign_slot_without_preferences x.1 x.2) sl (T, itertools_cycle seq)
  = Ok st' →
  (∀ sid dn l n, cell T sid dn = Some l → n ∈ l → n ∈ seq) →
  ∀ sid dn l n, cell st'.1 sid dn = Some l → n ∈ l → n ∈ seq.
Proof.
  intros Hrun HT.
  apply (for_each_invariant
           (λ st : Table * cycle_iter,
              cycle_saved st.2 = seq ∧
              ∀ sid dn l n, cell st.1 sid dn = Some l → n ∈ l → n ∈ seq)) in Hrun.
  - apply Hrun.
  - intros [sid d] t t' _ [Hsaved Hnames]
      (dn0 & w & _ & [Hw Hsaved']%next_saved & (l0 & Hl0 & Hupd)%append_slot_cell)%assign_slot_without_preferences_Ok.
    split; [congruence|]. intros s dn l n. rewrite Hupd.
    destruct (decide _) as [[-> ->]|_]; [|apply Hnames].
    intros [= <-] [Hn|Hn%list_elem_of_singleton]%elem_of_app.
    + by eapply Hnames.
    + subst n. by rewrite <- Hsaved.
  - split; [done|exact HT].
Qed.

Lemma returned_names shifts employees g T sid dn l n :
  returns_table shifts employees g T →
  cell T sid dn = Some l → n ∈ l → n ∈ name <$> employees.
Proof.
  intros [HT|HT] Hcell Hn.
  - destruct (assign_schedule_only_available _ _ _ _ HT sid dn l n Hcell Hn)
      as (e & He & <- & _).
    by apply list_elem_of_fmap_2.
  - rewrite assign_schedule_without_preferences_unfold in HT.
    apply fmap_Ok in HT as (st' & Hrun & ->).
    rewrite <- (random_shuffle_perm (name <$> employees) g).
    eapply (fallback_names _ _ _ _ Hrun); [|done..].
    intros s d l' n' Hc. rewrite initial_assignments_cell in Hc.
    destruct (decide _); [|done]. injection Hc as <-. by intros ?%elem_of_nil.
Qed.

(** X14.  Every name listed in a table returned by either assigner is
    the name of one of the workers. *)
Theorem returned_names_are_workers (shifts : list Shift) (employees : list Employee)
    (g : gen) (T : Table) :
  returns_table shifts employees g T → names_of_workers employees T.
Proof.
  intros HT sid dn l n Hcell Hn.
  destruct HT as [HT|HT]; eapply returned_names; eauto; [by left|by right].
Qed.

Lemma returned_names_are_workers_witness :
  ∃ T,
    returns_table scenario_shifts scenario_employees scenario_tape T ∧
    names_of_workers scenario_employees T.
Proof.
  eexists. split; [left; reflexivity|].
  apply (returned_names_are_workers scenario_shifts scenario_employees scenario_tape).
  left. reflexivity.
Defined.

(** ** [show_schedule] *)

Lemma schedule_cells_Ok (T : Table) sid dns :
  (∀ dn, dn ∈ dns → is_Some (cell T sid dn)) →
  schedule_cells T sid dns
  = Ok ((λ dn, join ", " (default [] (cell T sid dn))) <$> dns).
Proof.
  induction dns as [|dn dns IH]; intros Hcells; simpl; [done|].
  destruct (Hcells dn) as [l Hl]; [by left|].
  unfold cell in Hl. unfold cell at 1. unfold getitem.
  destruct (T !! sid) as [row|] eqn:Hrow; [|done]. simpl in *. rewrite Hl. simpl.
  rewrite IH; [done|]. intros dn' Hdn'. apply Hcells. by right.
Qed.

Lemma show_schedule_Ok shifts (T : Table) :
  (∀ s dn, s ∈ shifts → dn ∈ all_days_values → is_Some (cell T (shift s) dn)) →
  show_schedule shifts T = Ok (schedule_row T <$> shifts).
Proof.
  induction shifts as [|s shifts IH]; intros Hcells; [done|].
  cbn [show_schedule].
  rewrite schedule_cells_Ok by (intros dn Hdn; apply Hcells; [by left|done]).
  change (Ok ?a ≫= ?f) with (f a). cbn beta.
  rewrite IH; [done|]. intros s' dn Hs' Hdn. apply Hcells; [by right|done].
Qed.

Lemma returned_cells_present shifts employees g T s dn :
  returns_table shifts employees g T → s ∈ shifts → dn ∈ all_days_values →
  is_Some (cell T (shift s) dn).
Proof.
  intros HT Hs Hdn.
  destruct (returned_cells shifts employees g T (shift s) dn HT) as (names & _ & Hcell).
  rewrite Hcell, decide_True; [done|]. split; [by apply list_elem_of_fmap_2|done].
Qed.

(** X15.  [show_schedule] does not fail on a table returned by either
    assigner for the same shifts: it gives one row per shift, in order,
    made of the shift identifier and of the joined names of each of the
    seven weekdays. *)
Theorem show_schedule_returned (shifts : list Shift) (employees : list Employee)
    (g : gen) (T : Table) :
  returns_table shifts employees g T →
  show_schedule shifts T = Ok (schedule_row T <$> shifts) ∧
  Forall (λ row, length row = 8) (schedule_row T <$> shifts).
Proof.
  intros HT. split.
  - apply show_schedule_Ok. intros s dn Hs Hdn. by eapply returned_cells_present.
  - apply Forall_fmap, Forall_true. intros s. done.
Qed.

Lemma show_schedule_returned_witness :
  ∃ T,
    returns_table scenario_shifts scenario_employees scenario_tape T ∧
    show_schedule scenario_shifts T = Ok (schedule_row T <$> scenario_shifts) ∧
    Forall (λ row, length row = 8) (schedule_row T <$> scenario_shifts).
Proof.
  eexists. split; [left; reflexivity|].
  apply (show_schedule_returned scenario_shifts scenario_employees scenario_tape).
  left. reflexivity.
Defined.

(** X16.  With pairwise-distinct shift identifiers and no day repeated
    inside a shift, the entry that [show_schedule] gives for a shift and
    a weekday is the empty string when the shift is not active that day
    and the name of one worker when it is. *)
Theorem schedule_row_entries (shifts : list Shift) (employees : list Employee)
    (g : gen) (T : Table) (s : Shift) (j : nat) (dn : string) :
  NoDup (shift <$> shifts) →
  (∀ s', s' ∈ shifts → NoDup (days s')) →
  returns_table shifts employees g T →
  s ∈ shifts → all_days_values !! j = Some dn →
  ∃ entry,
    schedule_row T s !! S j = Some entry ∧
    ((∀ d, d ∈ days s → all_days !! d ≠ Some dn) → entry = "") ∧
    ((∃ d, d ∈ days s ∧ all_days !! d = Some dn) →
     entry ∈ name <$> employees ∧ cell T (shift s) dn = Some [entry]).
Proof.
  intros Hids Hdays HT Hs Hj.
  assert (dn ∈ all_days_values) as Hdn by by eapply list_elem_of_lookup_2.
  destruct (returned_cells shifts employees g T (shift s) dn HT) as (names & Hlen & Hcell).
  rewrite decide_True in Hcell by (split; [by apply list_elem_of_fmap_2|done]).
  rewrite hits_slots_NoDup in Hlen by done.
  exists (join ", " names). split_and!.
  - unfold schedule_row. cbn [lookup list_lookup].
    change (((λ dn0, join ", " (default [] (cell T (shift s) dn0))) <$> all_days_values) !! j
            = Some (join ", " names)).
    rewrite list_lookup_fmap, Hj. simpl. by rewrite Hcell.
  - intros Hoff. rewrite day_hits_none in Hlen by done. by destruct names.
  - intros (d & Hd & Hday). rewrite (day_hits_once d) in Hlen by auto.
    destruct names as [|w [|? ?]]; [done| |done]. simpl. split; [|done].
    eapply returned_names; [exact HT|exact Hcell|by left].
Qed.

Lemma schedule_row_entries_witness :
  ∃ T,
    NoDup (shift <$> scenario_shifts) ∧
    (∀ s', s' ∈ scenario_shifts → NoDup (days s')) ∧
    returns_table scenario_shifts scenario_employees scenario_tape T ∧
    monday_tuesday_open ∈ scenario_shifts ∧ all_days_values !! 1 = Some "Tuesday" ∧
    ∃ entry,
      schedule_row T monday_tuesday_open !! 2 = Some entry ∧
      ((∀ d, d ∈ days monday_tuesday_open → all_days !! d ≠ Some "Tuesday") →
       entry = "") ∧
      ((∃ d, d ∈ days monday_tuesday_open ∧ all_days !! d = Some "Tuesday") →
       entry ∈ name <$> scenario_employees ∧ cell T "Open" "Tuesday" = Some [entry]).
Proof.
  eexists.
  assert (NoDup (shift <$> scenario_shifts)) as Hids
    by by apply (bool_decide_unpack _).
  assert (∀ s', s' ∈ scenario_shifts → NoDup (days s')) as Hdays.
  { intros s' Hs'. apply list_elem_of_In in Hs'. simpl in Hs'.
    destruct Hs' as [<-|[<-|[]]]; by apply (bool_decide_unpack _). }
  assert (monday_tuesday_open ∈ scenario_shifts) as Hs by by left.
  assert (all_days_values !! 1 = Some "Tuesday") as Hj by reflexivity.
  split_and!; [done|done|left; reflexivity|done|done|].
  apply (schedule_row_entries scenario_shifts scenario_employees scenario_tape _
           monday_tuesday_open 1 "Tuesday" Hids Hdays); [left; reflexivity|done..].
Defined.

(** ** [complete_assignement] *)

Lemma lower_char_y c : lower_char c = "y"%char ↔ c = "y"%char ∨ c = "Y"%char.
Proof.
  destruct c as [[] [] [] [] [] [] [] []]; vm_compute; intuition congruence.
Qed.

Lemma lower_char_e c : lower_char c = "e"%char ↔ c = "e"%char ∨ c = "E"%char.
Proof.
  destruct c as [[] [] [] [] [] [] [] []]; vm_compute; intuition congruence.
Qed.

Lemma lower_char_s c : lower_char c = "s"%char ↔ c = "s"%char ∨ c = "S"%char.
Proof.
  destruct c as [[] [] [] [] [] [] [] []]; vm_compute; intuition congruence.
Qed.

(** [s.lower() == "yes"] holds for the eight spellings of [yes] only. *)
Lemma lower_yes s : lower s = "yes" ↔ s ∈ yes_spellings.
Proof.
  split.
  - destruct s as [|a [|b [|c [|d s]]]]; unfold lower; simpl; try done.
    intros [= Ha%lower_char_y Hb%lower_char_e Hc%lower_char_s].
    apply list_elem_of_In. simpl.
    destruct Ha as [-> | ->], Hb as [-> | ->], Hc as [-> | ->]; tauto.
  - intros H. apply list_elem_of_In in H. simpl in H.
    repeat (destruct H as [<-|H]; [reflexivity|]). destruct H.
Qed.

Lemma assign_slot_without_preferences_Raise sid d st ex :
  assign_slot_without_preferences sid d st = Raise ex →
  (∃ k, ex = KeyError k) ∨ ex = StopIteration.
Proof.
  unfold assign_slot_without_preferences.
  intros [[-> _]%getitem_Raise|(dn & _ & H)]%bind_Raise; [left; by eexists|].
  apply bind_Raise in H as [H|([w it] & _ & H)].
  - right. unfold next in H. by destruct (_ !! _); [|injection H].
  - left. apply bind_Raise in H as [H|(T' & _ & [=])].
    by apply append_slot_Raise in H.
Qed.

Lemma fallback_Raise shifts employees g ex :
  (assign_schedule_without_preferences shifts employees g).1 = Raise ex →
  (∃ k, ex = KeyError k) ∨ ex = StopIteration.
Proof.
  rewrite assign_schedule_without_preferences_unfold, fmap_Raise.
  intros (pre & [sid d] & post & st & _ & _ & H)%for_each_Raise.
  by apply assign_slot_without_preferences_Raise in H.
Qed.

(** X17.  [NotEnoughWorkersError] never leaves [complete_assignement]:
    it is caught, and neither the fall-back assigner nor the refusal,
    which exits, raises it again. *)
Theorem complete_assignement_catches (shifts : list Shift) (employees : list Employee)
    (g : gen) (stdin : list string) (msg : string) :
  complete_assignement shifts employees g stdin
  ≠ Fail (Uncaught (NotEnoughWorkersError msg)).
Proof.
  unfold complete_assignement.
  destruct (assign_schedule shifts employees g) as [[T|ex] g'] eqn:Hrun; [done|].
  destruct ex as [k| |code|msg']; try done.
  destruct stdin as [|line stdin]; [done|]. simpl.
  destruct (decide _); [|done].
  destruct (assign_schedule_without_preferences shifts employees g')
    as [[T|ex] g''] eqn:Hfall; [done|].
  pose proof (fallback_Raise shifts employees g' ex) as Hex. rewrite Hfall in Hex.
  destruct (Hex eq_refl) as [[k ->]| ->]; done.
Qed.

(** X18.  After [NotEnoughWorkersError] the answer decides: any of the
    eight spellings of [yes], blanks around it aside, runs the fall-back
    assigner, on the generator as the first attempt left it; any other
    answer exits with status 1. *)
Theorem complete_assignement_answer (shifts : list Shift) (employees : list Employee)
    (g : gen) (line : string) (stdin : list string) (msg : string) :
  (assign_schedule shifts employees g).1 = Raise (NotEnoughWorkersError msg) →
  let g' := (assign_schedule shifts employees g).2 in
  (strip line ∈ yes_spellings →
   complete_assignement shifts employees g (line :: stdin)
   = match assign_schedule_without_preferences shifts employees g' with
     | (Ok T, g'') => Done (T, g'', stdin)
     | (Raise e, _) => Fail (Uncaught e)
     end) ∧
  (strip line ∉ yes_spellings →
   complete_assignement shifts employees g (line :: stdin)
   = Fail (Uncaught (SystemExit 1))).
Proof.
  unfold complete_assignement.
  destruct (assign_schedule shifts employees g) as [r g0]. simpl. intros ->. simpl.
  split; intros Hyes.
  - rewrite decide_True; [done|]. by apply lower_yes.
  - rewrite decide_False; [done|]. by rewrite lower_yes.
Qed.

Lemma complete_assignement_answer_witness :
  (assign_schedule [monday_tuesday_open]
     [ {| name := "Alice"; unavailable_days := ["1"] |} ] scenario_tape).1
  = Raise (NotEnoughWorkersError not_enough_msg) ∧
  complete_assignement [monday_tuesday_open]
    [ {| name := "Alice"; unavailable_days := ["1"] |} ] scenario_tape [" no "]
  = Fail (Uncaught (SystemExit 1)).
Proof.
  assert ((assign_schedule [monday_tuesday_open]
             [ {| name := "Alice"; unavailable_days := ["1"] |} ] scenario_tape).1
          = Raise (NotEnoughWorkersError not_enough_msg)) as Hrun
    by (vm_compute; reflexivity).
  split; [done|].
  apply (complete_assignement_answer [monday_tuesday_open]
           [ {| name := "Alice"; unavailable_days := ["1"] |} ] scenario_tape
           " no " [] not_enough_msg Hrun).
  vm_compute. intros H. apply list_elem_of_In in H. simpl in H.
  repeat (destruct H as [H|H]; [discriminate H|]). destruct H.
Defined.

Lemma complete_assignement_returns_table shifts employees g stdin T g' rest :
  complete_assignement shifts employees g stdin = Done (T, g', rest) →
  ∃ g0, returns_table shifts employees g0 T.
Proof.
  unfold complete_assignement.
  destruct (assign_schedule shifts employees g) as [[T0|ex] g0] eqn:Hrun.
  - intros [= <- <- <-]. exists g. left. by rewrite Hrun.
  - destruct ex as [k| |code|msg']; try done.
    destruct stdin as [|line stdin]; [done|]. simpl.
    destruct (decide _); [|done].
    destruct (assign_schedule_without_preferences shifts employees g0)
      as [[T1|ex] g''] eqn:Hfall; [|done].
    intros [= <- <- <-]. exists g0. right. by rewrite Hfall.
Qed.

(** X19.  For at least one worker and shifts whose day keys are keys of
    [all_days], [complete_assignement] ends in one of three ways: with a
    table that one of the two assigners returned, with the exit of
    status 1, or with [EOFError] when no answer can be read. *)
Theorem complete_assignement_outcomes (shifts : list Shift) (employees : list Employee)
    (g : gen) (stdin : list string) :
  employees ≠ [] → valid_shifts shifts →
  (∃ T g' rest,
     complete_assignement shifts employees g stdin = Done (T, g', rest) ∧
     ∃ g0, returns_table shifts employees g0 T) ∨
  complete_assignement shifts employees g stdin = Fail (Uncaught (SystemExit 1)) ∨
  complete_assignement shifts employees g stdin = Fail EOFError.
Proof.
  intros Hne Hvalid.
  destruct (complete_assignement shifts employees g stdin) as [[[T g'] rest]|err] eqn:Hrun.
  { left. exists T, g', rest. split; [done|].
    by eapply complete_assignement_returns_table. }
  right. revert Hrun. unfold complete_assignement.
  destruct (assign_schedule shifts employees g) as [[T0|ex] g0] eqn:Hfirst; [done|].
  assert (ex = NotEnoughWorkersError not_enough_msg ∨ ex = SystemExit 1) as Hex.
  { apply (assign_schedule_Raise_valid shifts employees g); [done|]. by rewrite Hfirst. }
  destruct Hex as [-> | ->]; [|intros [= <-]; by left].
  destruct stdin as [|line stdin]; [intros [= <-]; by right|]. simpl.
  destruct (decide _); [|intros [= <-]; by left].
  pose proof (fallback_round_robin_valid shifts employees g0 Hne Hvalid) as Hfall.
  destruct (assign_schedule_without_preferences shifts employees g0) as [[T1|ex] g1];
    simpl in Hfall; done.
Qed.

Lemma complete_assignement_outcomes_witness :
  scenario_employees ≠ [] ∧ valid_shifts scenario_shifts ∧
  ((∃ T g' rest,
      complete_assignement scenario_shifts scenario_employees scenario_tape []
      = Done (T, g', rest) ∧
      ∃ g0, returns_table scenario_shifts scenario_employees g0 T) ∨
   complete_assignement scenario_shifts scenario_employees scenario_tape []
   = Fail (Uncaught (SystemExit 1)) ∨
   complete_assignement scenario_shifts scenario_employees scenario_tape []
   = Fail EOFError).
Proof.
  assert (scenario_employees ≠ []) as Hne by done.
  assert (valid_shifts scenario_shifts) as Hvalid by (repeat constructor; by eexists).
  split_and!; [done..|].
  exact (complete_assignement_outcomes scenario_shifts scenario_employees
           scenario_tape [] Hne Hvalid).
Defined.

(** X20.  A table that [complete_assignement] returns can always be
    shown: [show_schedule] gives its rows for the same shifts without
    failing. *)
Theorem complete_assignement_then_show (shifts : list Shift)
    (employees : list Employee) (g g' : gen) (stdin rest : list string) (T : Table) :
  complete_assignement shifts employees g stdin = Done (T, g', rest) →
  show_schedule shifts T = Ok (schedule_row T <$> shifts).
Proof.
  intros (g0 & HT)%complete_assignement_returns_table.
  apply show_schedule_Ok. intros s dn Hs Hdn. by eapply returned_cells_present.
Qed.

Lemma complete_assignement_then_show_witness :
  ∃ T g',
    complete_assignement scenario_shifts scenario_employees scenario_tape []
    = Done (T, g', []) ∧
    show_schedule scenario_shifts T = Ok (schedule_row T <$> scenario_shifts).
Proof.
  do 2 eexists. split; [reflexivity|].
  eapply (complete_assignement_then_show scenario_shifts scenario_employees
            scenario_tape _ [] []).
  reflexivity.
Defined.

(** ** The shares of the fall-back assigner *)

Lemma sum_list_with_plus {A} (f g : A → nat) l :
  sum_list_with (λ x, f x + g x) l = sum_list_with f l + sum_list_with g l.
Proof. induction l as [|x l IH]; simpl; [done|]. rewrite IH. lia. Qed.

Lemma sum_list_with_ext {A} (f g : A → nat) l :
  (∀ x, f x = g x) → sum_list_with f l = sum_list_with g l.
Proof. intros H. induction l as [|x l IH]; simpl; [done|]. by rewrite H, IH. Qed.

Lemma sum_indicator (l : list string) dn (P : Prop) `{!Decision P} :
  NoDup l → dn ∈ l →
  sum_list_with (λ d, if decide (P ∧ d = dn) then 1 else 0) l
  = if decide P then 1 else 0.
Proof.
  induction l as [|d l IH]; intros Hnd Hin; [inversion Hin|].
  apply NoDup_cons in Hnd as [Hd Hnd]. simpl.
  assert (∀ l', dn ∉ l' →
    sum_list_with (λ d, if decide (P ∧ d = dn) then 1 else 0) l' = 0) as Hzero.
  { intros l' Hl'. induction l' as [|d' l' IH']; [done|].
    apply not_elem_of_cons in Hl' as [Hne Hl']. simpl.
    rewrite decide_False by (intros [_ ?]; congruence). by rewrite IH'. }
  apply elem_of_cons in Hin as [->|Hin].
  - rewrite Hzero by done. destruct (decide P).
    + by rewrite decide_True.
    + rewrite decide_False by tauto. done.
  - rewrite IH by done. rewrite decide_False; [done|].
    intros [_ ->]. done.
Qed.

Lemma all_days_values_NoDup : NoDup all_days_values.
Proof. by apply (bool_decide_unpack _). Qed.

Lemma total_slots_assign_to (T : Table) sid dn who w :
  is_Some (cell T sid dn) → dn ∈ all_days_values →
  total_slots w (assign_to T sid dn who)
  = total_slots w T + (if decide (w = who) then 1 else 0).
Proof.
  intros Hcell Hdn. unfold total_slots.
  pose proof (append_slot_assign_to T sid dn who Hcell) as Happ.
  rewrite (sum_list_with_ext _
             (λ d, occurrences w d T + (if decide (w = who ∧ d = dn) then 1 else 0)))
    by (intros d; apply (occurrences_append _ _ _ _ _ w d Happ)).
  rewrite sum_list_with_plus. f_equal.
  apply sum_indicator; [apply all_days_values_NoDup|done].
Qed.

Lemma total_slots_initial w shifts : total_slots w (initial_assignments shifts) = 0.
Proof.
  unfold total_slots. generalize all_days_values. intros l.
  induction l as [|d l IH]; simpl; [done|]. by rewrite occurrences_initial, IH.
Qed.

(** The slots that the round robin gives to [w], by their numbers. *)
Lemma total_slots_round_robin (order : list string) sl T k w :
  1 ≤ k →
  (∀ sid d, (sid, d) ∈ sl →
     ∃ dn, all_days !! d = Some dn ∧ ∀ T',
       (∀ s' d', is_Some (cell T s' d') → is_Some (cell T' s' d')) →
       is_Some (cell T' sid dn)) →
  total_slots w (round_robin_from k order sl T)
  = total_slots w T
    + length (filter (λ i, order !!! (i `mod` length order) = w) (seq (k - 1) (length sl))).
Proof.
  revert T k. induction sl as [|[sid d] sl IH]; intros T k Hk Hsl.
  { simpl. lia. }
  destruct (Hsl sid d) as (dn & Hdn & Hcell); [by left|].
  cbn [round_robin_from length seq]. rewrite (lookup_total_correct _ _ _ Hdn).
  assert (is_Some (cell T sid dn)) as Hc by (apply Hcell; auto).
  rewrite IH; [|lia|].
  - rewrite total_slots_assign_to by (done || by eapply all_days_value).
    replace (S k - 1) with (S (k - 1)) by lia.
    rewrite filter_cons. destruct (decide (order !!! _ = w)) as [Heq|Hne].
    + rewrite decide_True by done. simpl. lia.
    + rewrite decide_False by done. lia.
  - intros sid' d' Hin. destruct (Hsl sid' d') as (dn' & Hdn' & Hcell'); [by right|].
    exists dn'. split; [done|]. intros T' HT'. apply Hcell'.
    intros s0 d0 H0. apply HT'.
    destruct (append_slot_cell T sid dn (order !!! ((k - 1) `mod` length order))
                (assign_to T sid dn (order !!! ((k - 1) `mod` length order))))
      as (l & Hl & Hupd); [by apply append_slot_assign_to|].
    rewrite Hupd. by destruct (decide _).
Qed.

Lemma succ_div_mod n N :
  0 < n →
  (S (N `mod` n) = n ∧ S N `div` n = S (N `div` n) ∧ S N `mod` n = 0) ∨
  (S (N `mod` n) < n ∧ S N `div` n = N `div` n ∧ S N `mod` n = S (N `mod` n)).
Proof.
  intros Hn. pose proof (Nat.div_mod_eq N n) as HN.
  assert (N `mod` n < n) as Hr by (apply Nat.mod_upper_bound; lia).
  set (r := N `mod` n) in *. set (q := N `div` n) in *. clearbody r q.
  destruct (decide (S r = n)) as [Hwrap|Hnext].
  - left. split; [done|]. split; symmetry.
    + apply (Nat.div_unique _ _ _ 0); lia.
    + apply (Nat.mod_unique _ _ (S q)); lia.
  - right. split; [lia|]. split; symmetry.
    + apply (Nat.div_unique _ _ _ (S r)); lia.
    + apply (Nat.mod_unique _ _ q); lia.
Qed.

(** Among the numbers below [N], those that leave the rest [j] modulo
    [n]. *)
Lemma count_residue n j N :
  j < n →
  length (filter (λ i, i `mod` n = j) (seq 0 N))
  = N `div` n + (if decide (j < N `mod` n) then 1 else 0).
Proof.
  intros Hj. induction N as [|N IH].
  { simpl. rewrite Nat.Div0.div_0_l, Nat.Div0.mod_0_l. by rewrite decide_False by lia. }
  rewrite seq_S, filter_app, length_app, IH. simpl.
  destruct (succ_div_mod n N) as [(Hr & -> & ->)|(Hr & -> & ->)]; [lia|..].
  - rewrite filter_cons, filter_nil.
    rewrite (decide_False (P := j < 0)) by lia.
    destruct (decide (N `mod` n = j)) as [Heq|Hne]; simpl.
    + rewrite decide_False by lia. lia.
    + rewrite decide_True by lia. lia.
  - rewrite filter_cons, filter_nil.
    destruct (decide (N `mod` n = j)) as [Heq|Hne]; simpl.
    + rewrite decide_False by lia. rewrite decide_True by lia. lia.
    + destruct (decide (j < N `mod` n)).
      * rewrite decide_True by lia. lia.
      * rewrite decide_False by lia. lia.
Qed.

Lemma count_position (order : list string) j w N :
  NoDup order → order !! j = Some w →
  length (filter (λ i, order !!! (i `mod` length order) = w) (seq 0 N))
  = N `div` length order + (if decide (j < N `mod` length order) then 1 else 0).
Proof.
  intros Hnd Hj. assert (j < length order) as Hlt by by eapply lookup_lt_Some.
  rewrite <- (count_residue (length order) j N) by done.
  f_equal. apply list_filter_iff. intros i.
  assert (i `mod` length order < length order) as Hi
    by (apply Nat.mod_upper_bound; lia).
  destruct (lookup_lt_is_Some_2 order _ Hi) as [x Hx].
  rewrite (list_lookup_total_correct _ _ _ Hx). split.
  - intros ->. by eapply NoDup_lookup.
  - intros Heq. rewrite Heq in Hx. congruence.
Qed.

(** X21.  The fall-back assigner shares the slots evenly.  With at least
    one worker, pairwise-distinct names and day keys that are keys of
    [all_days], the worker at position [j] of the shuffled sequence gets
    [N div n] of the [N] slots, and one more when [j < N mod n]; hence
    the shares of two workers differ by one slot at most. *)
Theorem fallback_shares (shifts : list Shift) (employees : list Employee) (g : gen) :
  employees ≠ [] → NoDup (name <$> employees) → valid_shifts shifts →
  let order := (random_shuffle (name <$> employees) g).1 in
  let n := length employees in
  let N := length (slots shifts) in
  ∃ T,
    (assign_schedule_without_preferences shifts employees g).1 = Ok T ∧
    (∀ j w, order !! j = Some w →
       total_slots w T = N `div` n + (if decide (j < N `mod` n) then 1 else 0)) ∧
    (∀ w1 w2, w1 ∈ name <$> employees → w2 ∈ name <$> employees →
       total_slots w1 T ≤ total_slots w2 T + 1).
Proof.
  intros Hne Hnd Hvalid order n N.
  assert (order ≡ₚ name <$> employees) as Hperm by apply random_shuffle_perm.
  assert (length order = n) as Hlen by by rewrite Hperm, length_fmap.
  assert (NoDup order) as Hnd' by by rewrite Hperm.
  exists (round_robin_table shifts order).
  split; [by apply fallback_round_robin_valid|].
  assert (∀ j w, order !! j = Some w →
    total_slots w (round_robin_table shifts order)
    = N `div` n + (if decide (j < N `mod` n) then 1 else 0)) as Hshare.
  { intros j w Hj. unfold round_robin_table.
    rewrite total_slots_round_robin; [|lia|].
    - rewrite total_slots_initial. change (1 - 1) with 0.
      rewrite Nat.add_0_l. subst N.
      rewrite (count_position order j w _ Hnd' Hj). by rewrite Hlen.
    - intros sid d (s & Hs & -> & Hd)%elem_of_slots_inv.
      unfold valid_shifts in Hvalid. rewrite Forall_forall in Hvalid.
      specialize (Hvalid s Hs). rewrite Forall_forall in Hvalid.
      destruct (Hvalid d Hd) as [dn Hdn]. exists dn. split; [done|].
      intros T' HT'. apply HT'. rewrite initial_assignments_cell, decide_True; [done|].
      split; [by apply list_elem_of_fmap_2 | by eapply all_days_value]. }
  split; [done|].
  intros w1 w2 Hw1 Hw2. rewrite <- Hperm in Hw1, Hw2.
  apply list_elem_of_lookup in Hw1 as [j1 Hj1]. apply list_elem_of_lookup in Hw2 as [j2 Hj2].
  rewrite (Hshare j1 w1 Hj1), (Hshare j2 w2 Hj2).
  repeat case_decide; lia.
Qed.

Lemma fallback_shares_witness :
  scenario_employees ≠ [] ∧ NoDup (name <$> scenario_employees) ∧
  valid_shifts scenario_shifts ∧
  ∃ T,
    (assign_schedule_without_preferences scenario_shifts scenario_employees
       scenario_tape).1 = Ok T ∧
    (∀ j w, (random_shuffle (name <$> scenario_employees) scenario_tape).1 !! j = Some w →
       total_slots w T
       = length (slots scenario_shifts) `div` length scenario_employees
         + (if decide (j < length (slots scenario_shifts) `mod` length scenario_employees)
            then 1 else 0)) ∧
    (∀ w1 w2, w1 ∈ name <$> scenario_employees → w2 ∈ name <$> scenario_employees →
       total_slots w1 T ≤ total_slots w2 T + 1).
Proof.
  assert (scenario_employees ≠ []) as Hne by done.
  assert (NoDup (name <$> scenario_employees)) as Hnd
    by by apply (bool_decide_unpack _).
  assert (valid_shifts scenario_shifts) as Hvalid by (repeat constructor; by eexists).
  split_and!; [done..|].
  exact (fallback_shares scenario_shifts scenario_employees scenario_tape
           Hne Hnd Hvalid).
Defined.

(** ** A day key that is no weekday

    The row [Night,22:00,06:00,110] passes [shifts_table]; with one
    worker the second Monday slot raises [NotEnoughWorkersError], and
    after the answer [yes] the fall-back assigner raises [KeyError] on
    the key ["0"]. *)
Example day_zero_reaches_fallback :
  (∃ rows, shifts_table [night_row] = Done rows) ∧
  shift_of_row night_row = monday_twice_day_zero_shift ∧
  (assign_schedule [monday_twice_day_zero_shift]
     [ {| name := "Dana"; unavailable_days := [] |} ] scenario_tape).1
  = Raise (NotEnoughWorkersError not_enough_msg) ∧
  complete_assignement [monday_twice_day_zero_shift]
    [ {| name := "Dana"; unavailable_days := [] |} ] scenario_tape ["yes"]
  = Fail (Uncaught (KeyError "0")).
Proof. split_and!; [by eexists|reflexivity..]. Qed.
